(** * Web IDE page component: folder reading, tree rendering, selection

    A shallow embedding of [src/app/page.tsx]: the [FileNode] tree, the
    asynchronous [readDirectory] walk over a directory handle, the
    [handleFolderSelect] action with its try/catch, and [renderFileTree]
    with the click handler of every row.

    React state is a record that the actions thread through; every call
    of a state setter and of a browser capability is appended to a
    journal, so that the order of effects can be stated. *)

From Stdlib Require Import String List Bool Arith Lia.
Import ListNotations.
Open Scope string_scope.
Open Scope list_scope.

Set Warnings "-register-all".

(** ** Thrown values and completions *)

(** What the [catch] clause inspects of a thrown value: [error.name] and
    [error.message]. *)
Record JsError := mkError { error_name : string; error_message : string }.

(** [new Error(msg)] *)
Definition new_Error (msg : string) : JsError :=
  {| error_name := "Error"; error_message := msg |}.

(** How an awaited call completes: it resolves to a value or rejects. *)
Inductive Completion (A : Type) : Type :=
| Returned (a : A)
| Thrown (e : JsError).
Arguments Returned {A} a.
Arguments Thrown {A} e.

(** ** The file tree (interface [FileNode]) *)

Inductive NodeType := file | directory.

Inductive FileNode : Type := mkFileNode {
  name : string;
  type : NodeType;
  content : option string;
  children : option (list FileNode)
}.

(** ** The directory handle granted by the browser *)

(** The [File] that [getFile()] resolves to; [text()] decodes it. *)
Record File := mkFile { text : Completion string }.

(** A handle of the File System Access API. A directory's [values()]
    yields [entries] in enumeration order and then either finishes or
    throws. A handle whose [kind] is neither ['file'] nor ['directory']
    is kept apart, as the source tests the two kinds one after the other. *)
Inductive Handle : Type :=
| FileHandle (entry_name : string) (getFile : Completion File)
| DirectoryHandle (entry_name : string) (entries : list Handle)
                  (failure : option JsError)
| OtherHandle (entry_name : string).

Definition handle_name (h : Handle) : string :=
  match h with
  | FileHandle n _ | DirectoryHandle n _ _ | OtherHandle n => n
  end.

(** ** Component state and effects *)

(** [useState] cells of [Home]. *)
Record State := mkState {
  files : list FileNode;
  selectedFile : option (string * string);
  terminalOutput : list string;
  error : option string
}.

Inductive Effect :=
| SetError (e : option string)
| SetFiles (f : list FileNode)
| SetSelectedFile (sel : option (string * string))
| ConsoleError (e : JsError)
| ShowDirectoryPicker
| Values (dir : string)
| GetFile (entry : string)
| Text (entry : string).

Record Store := mkStore { ui : State; journal : list Effect }.

(** An action runs on a store and either returns or throws. *)
Definition Action (A : Type) : Type := Store -> Store * Completion A.

Definition ret {A} (a : A) : Action A := fun s => (s, Returned a).

Definition throw {A} (e : JsError) : Action A := fun s => (s, Thrown e).

Definition bind {A B} (m : Action A) (k : A -> Action B) : Action B :=
  fun s =>
    match m s with
    | (s', Returned a) => k a s'
    | (s', Thrown e) => (s', Thrown e)
    end.

(** [try { body } catch (error) { handler }] *)
Definition try_catch {A} (body : Action A) (handler : JsError -> Action A)
  : Action A :=
  fun s =>
    match body s with
    | (s', Returned a) => (s', Returned a)
    | (s', Thrown e) => handler e s'
    end.

Declare Scope action_scope.
Delimit Scope action_scope with action.
Notation "x <- m ;; k" := (bind m (fun x => k))
  (at level 100, m at next level, right associativity) : action_scope.
Notation "m ;; k" := (bind m (fun _ => k))
  (at level 100, right associativity) : action_scope.
Open Scope action_scope.

Definition record (e : Effect) : Action unit :=
  fun s => ({| ui := ui s; journal := journal s ++ [e] |}, Returned tt).

(** [await call], where the call is journalled and completes as [c]. *)
Definition await {A} (e : Effect) (c : Completion A) : Action A :=
  record e ;;
  match c with
  | Returned a => ret a
  | Thrown err => throw err
  end.

Definition update (f : State -> State) : Action unit :=
  fun s => ({| ui := f (ui s); journal := journal s |}, Returned tt).

Definition setError (e : option string) : Action unit :=
  record (SetError e) ;;
  update (fun st => {| files := files st; selectedFile := selectedFile st;
                       terminalOutput := terminalOutput st; error := e |}).

Definition setFiles (f : list FileNode) : Action unit :=
  record (SetFiles f) ;;
  update (fun st => {| files := f; selectedFile := selectedFile st;
                       terminalOutput := terminalOutput st; error := error st |}).

Definition setSelectedFile (sel : option (string * string)) : Action unit :=
  record (SetSelectedFile sel) ;;
  update (fun st => {| files := files st; selectedFile := sel;
                       terminalOutput := terminalOutput st; error := error st |}).

Definition console_error (e : JsError) : Action unit :=
  record (ConsoleError e).

(** ** [readDirectory] *)

Section ForAwait.
(** The recursive call of [readDirectory], the error that ends the
    enumeration (if any), and the [path] of the directory being read. *)
Variable recur : Handle -> string -> Action (list FileNode).
Variable failure : option JsError.
Variable path : string.

(** [for await (const entry of dirHandle.values()) { ... } return entries],
    from the entries not yet yielded and the array [entries] so far. *)
Fixpoint for_await (rest : list Handle) (entries : list FileNode)
  : Action (list FileNode) :=
  match rest with
  | [] =>
      match failure with
      | Some e => throw e
      | None => ret entries
      end
  | entry :: rest' =>
      match entry with
      | FileHandle n getFile =>
          f <- await (GetFile n) getFile ;;
          c <- await (Text n) (text f) ;;
          for_await rest'
            (entries ++ [{| name := n; type := file;
                            content := Some c; children := None |}])
      | DirectoryHandle n _ _ =>
          ch <- recur entry (path ++ "/" ++ n)%string ;;
          for_await rest'
            (entries ++ [{| name := n; type := directory;
                            content := None; children := Some ch |}])
      | OtherHandle _ => for_await rest' entries
      end
  end.
End ForAwait.

Fixpoint readDirectory (dirHandle : Handle) (path : string) {struct dirHandle}
  : Action (list FileNode) :=
  match dirHandle with
  | DirectoryHandle n entries failure =>
      record (Values n) ;;
      for_await readDirectory failure path entries []
  | FileHandle _ _ | OtherHandle _ =>
      throw {| error_name := "TypeError";
               error_message := "dirHandle.values is not a function" |}
  end.

(** ** [handleFolderSelect] *)

(** What the action reads of [window]: whether ['showDirectoryPicker'] is
    a property of it, whether [window.top === window.self], and how the
    picker completes once it is called. *)
Record Window := mkWindow {
  has_showDirectoryPicker : bool;
  top_is_self : bool;
  showDirectoryPicker : Completion Handle
}.

Definition isFileSystemApiSupported (window : Window) : bool :=
  has_showDirectoryPicker window.

(** [s || d] on strings: the empty string is falsy. *)
Definition or_else (s d : string) : string :=
  if s =? "" then d else s.

Definition unsupported_message : string :=
  "Your browser does not support the File System Access API. Please use a modern browser like Chrome or Edge.".

Definition iframe_message : string :=
  "This feature cannot be used within an iframe. Please open the application in a new tab.".

Definition security_message : string :=
  "Cannot access files due to security restrictions. Please try opening the application in a new tab.".

Definition fallback_message : string :=
  "Failed to open folder. Please try again.".

(** The [catch] clause. *)
Definition on_error (error : JsError) : Action unit :=
  console_error error ;;
  if error_name error =? "SecurityError" then
    setError (Some security_message)
  else
    setError (Some (or_else (error_message error) fallback_message)).

Definition handleFolderSelect (window : Window) : Action unit :=
  setError None ;;
  if negb (isFileSystemApiSupported window) then
    setError (Some unsupported_message)
  else
    try_catch
      ((if negb (top_is_self window)
        then throw (new_Error iframe_message)
        else ret tt) ;;
       dirHandle <- await ShowDirectoryPicker (showDirectoryPicker window) ;;
       filesData <- readDirectory dirHandle "" ;;
       setFiles filesData)
      on_error.

(** ** [renderFileTree] *)

Inductive Icon := FolderIcon | FileIcon.

(** The [<div>] of one node: its [marginLeft] in px, the [Button] (icon,
    label, click handler) and, after the button, the [<div>]s of the
    node's children. *)
Inductive Div : Type := mkDiv {
  marginLeft : nat;
  icon : Icon;
  label : string;
  onClick : Action unit;
  nested : list Div
}.

(** [content || ''] *)
Definition content_or_empty (c : option string) : string :=
  match c with
  | Some s => s
  | None => ""
  end.

Definition click (node : FileNode) : Action unit :=
  match type node with
  | file => setSelectedFile (Some (name node, content_or_empty (content node)))
  | directory => ret tt
  end.

Fixpoint render_node (level : nat) (node : FileNode) : Div :=
  {| marginLeft := level * 16;
     icon := match type node with
             | directory => FolderIcon
             | file => FileIcon
             end;
     label := name node;
     onClick := click node;
     nested := match children node with
               | Some ch => map (render_node (level + 1)) ch
               | None => []
               end |}.

Definition renderFileTree (nodes : list FileNode) (level : nat) : list Div :=
  map (render_node level) nodes.

(** The close button of the editor pane. *)
Definition closeFile : Action unit := setSelectedFile None.

(** ** Vocabulary of the properties *)

(** The store with [l] appended to its journal and the state untouched. *)
Definition logged (s : Store) (l : list Effect) : Store :=
  {| ui := ui s; journal := journal s ++ l |}.

Definition with_error (e : option string) (st : State) : State :=
  {| files := files st; selectedFile := selectedFile st;
     terminalOutput := terminalOutput st; error := e |}.

Definition with_files (f : list FileNode) (st : State) : State :=
  {| files := f; selectedFile := selectedFile st;
     terminalOutput := terminalOutput st; error := error st |}.

Definition with_selectedFile (sel : option (string * string)) (st : State)
  : State :=
  {| files := files st; selectedFile := sel;
     terminalOutput := terminalOutput st; error := error st |}.

(** Calls on handles: directory enumeration and file reads. *)
Definition is_access (e : Effect) : bool :=
  match e with
  | Values _ | GetFile _ | Text _ => true
  | _ => false
  end.

(** Calls that reach the file system at all, the picker included. *)
Definition touches_file_system (e : Effect) : bool :=
  match e with
  | ShowDirectoryPicker | Values _ | GetFile _ | Text _ => true
  | _ => false
  end.

Definition is_SetFiles (e : Effect) : bool :=
  match e with
  | SetFiles _ => true
  | _ => false
  end.

(** Entries the loop turns into a node. *)
Definition listed (h : Handle) : bool :=
  match h with
  | FileHandle _ _ | DirectoryHandle _ _ _ => true
  | OtherHandle _ => false
  end.

Definition is_file_handle (h : Handle) : bool :=
  match h with
  | FileHandle _ _ => true
  | _ => false
  end.

Definition is_directory_handle (h : Handle) : bool :=
  match h with
  | DirectoryHandle _ _ _ => true
  | _ => false
  end.

(** Some read fails somewhere below [h]: [getFile()] or [text()] of a
    file rejects, or the enumeration of a directory throws. *)
Fixpoint faulty (h : Handle) : bool :=
  match h with
  | FileHandle _ (Thrown _) => true
  | FileHandle _ (Returned f) =>
      match text f with
      | Thrown _ => true
      | Returned _ => false
      end
  | DirectoryHandle _ entries failure =>
      existsb faulty entries ||
      match failure with
      | Some _ => true
      | None => false
      end
  | OtherHandle _ => false
  end.

(** [Snapshot entries nodes]: [nodes] is what a read of [entries] without
    any failure must leave in memory. *)
Inductive Snapshot : list Handle -> list FileNode -> Prop :=
| Snapshot_nil : Snapshot [] []
| Snapshot_file n f c rest nodes :
    text f = Returned c ->
    Snapshot rest nodes ->
    Snapshot (FileHandle n (Returned f) :: rest)
             ({| name := n; type := file;
                 content := Some c; children := None |} :: nodes)
| Snapshot_directory n sub ch rest nodes :
    Snapshot sub ch ->
    Snapshot rest nodes ->
    Snapshot (DirectoryHandle n sub None :: rest)
             ({| name := n; type := directory;
                 content := None; children := Some ch |} :: nodes)
| Snapshot_other n rest nodes :
    Snapshot rest nodes ->
    Snapshot (OtherHandle n :: rest) nodes.

(** [Mirrors entries nodes]: one node per file or directory entry, in the
    order of the enumeration, with the entry's name and kind, and the same
    again between a subdirectory's entries and its node's [children]. *)
Inductive Mirrors : list Handle -> list FileNode -> Prop :=
| Mirrors_nil : Mirrors [] []
| Mirrors_file n g rest node nodes :
    name node = n -> type node = file ->
    Mirrors rest nodes ->
    Mirrors (FileHandle n g :: rest) (node :: nodes)
| Mirrors_directory n sub fl rest node ch nodes :
    name node = n -> type node = directory ->
    children node = Some ch -> Mirrors sub ch ->
    Mirrors rest nodes ->
    Mirrors (DirectoryHandle n sub fl :: rest) (node :: nodes)
| Mirrors_other n rest nodes :
    Mirrors rest nodes ->
    Mirrors (OtherHandle n :: rest) nodes.

(** The entry at a position: [i :: p] is the [i]-th listed entry, then
    [p] below it. *)
Fixpoint entry_at (entries : list Handle) (p : list nat) : option Handle :=
  match p with
  | [] => None
  | i :: p' =>
      match nth_error (filter listed entries) i with
      | Some h =>
          match p' with
          | [] => Some h
          | _ :: _ =>
              match h with
              | DirectoryHandle _ sub _ => entry_at sub p'
              | _ => None
              end
          end
      | None => None
      end
  end.

(** The node at a position of a tree. *)
Fixpoint node_at (nodes : list FileNode) (p : list nat) : option FileNode :=
  match p with
  | [] => None
  | i :: p' =>
      match nth_error nodes i with
      | Some node =>
          match p' with
          | [] => Some node
          | _ :: _ =>
              match children node with
              | Some ch => node_at ch p'
              | None => None
              end
          end
      | None => None
      end
  end.

(** Exactly one of [content] and [children] is present, as [type] says,
    in the node and in every node below it. *)
Fixpoint well_formed (node : FileNode) : bool :=
  match type node, content node, children node with
  | file, Some _, None => true
  | directory, None, Some ch => forallb well_formed ch
  | _, _, _ => false
  end.

(** Document order of the rendered rows, each with its indent on the
    page: a [<div>]'s button, then the rows of the [<div>]s nested in it.
    A [<div>] lies inside the [<div>] of its parent, so its margin adds
    to the left edge [base] of the parent. *)
Fixpoint rows (base : nat) (d : Div) : list (nat * string) :=
  (base + marginLeft d, label d)
  :: flat_map (rows (base + marginLeft d)) (nested d).

(** Depth-first pre-order of a tree, every node with its depth. *)
Fixpoint preorder (depth : nat) (node : FileNode) : list (nat * string) :=
  (depth, name node) ::
  match children node with
  | Some ch => flat_map (preorder (S depth)) ch
  | None => []
  end.

(** The banner the [catch] clause sets for a thrown value. *)
Definition banner (e : JsError) : string :=
  if error_name e =? "SecurityError" then security_message
  else or_else (error_message e) fallback_message.

(** [src/{a.txt, lib/{b.txt}}] *)
Definition nested_example : list FileNode :=
  [ {| name := "src"; type := directory; content := None;
       children := Some
         [ {| name := "a.txt"; type := file;
              content := Some "alpha"; children := None |};
           {| name := "lib"; type := directory; content := None;
              children := Some
                [ {| name := "b.txt"; type := file;
                     content := Some "beta"; children := None |} ] |} ] |} ].

(** A node and every node below it. *)
Fixpoint all_nodes (node : FileNode) : list FileNode :=
  node ::
  match children node with
  | Some ch => flat_map all_nodes ch
  | None => []
  end.

(** What [well_formed] says of one node. *)
Definition one_of_content_children (node : FileNode) : Prop :=
  (type node = file /\
   (exists c, content node = Some c) /\ children node = None)
  \/
  (type node = directory /\
   content node = None /\ exists ch, children node = Some ch).

(** The indent, in px, that the nesting gives a row at a depth: the
    margins 16 * 0, 16 * 1, ..., 16 * depth added up. *)
Definition indent_at (row : nat * string) : nat * string :=
  (8 * fst row * (fst row + 1), snd row).

(** The whole behaviour of one call: only the journal grows, by calls on
    handles; a returned tree is the snapshot of a directory without
    failure; a throw means a failure below or a handle without [values]. *)
Definition read_spec (h : Handle) : Prop :=
  forall path s, exists l r,
    readDirectory h path s = (logged s l, r) /\
    forallb is_access l = true /\
    match r with
    | Returned nodes =>
        exists n entries,
          h = DirectoryHandle n entries None /\
          Snapshot entries nodes /\ existsb faulty entries = false
    | Thrown _ => faulty h = true \/ is_directory_handle h = false
    end.

(** ** Example data *)

Definition readable (s : string) : Completion File :=
  Returned {| text := Returned s |}.

(** A picked folder [project/{a.txt, lib/{b.txt}}] with one entry of
    another kind. *)
Definition project_entries : list Handle :=
  [ FileHandle "a.txt" (readable "alpha");
    OtherHandle "odd";
    DirectoryHandle "lib" [ FileHandle "b.txt" (readable "beta") ] None ].

Definition project : Handle := DirectoryHandle "project" project_entries None.

Definition not_readable : JsError :=
  {| error_name := "NotReadableError";
     error_message := "The requested file could not be read." |}.

(** The same folder, where reading [lib/b.txt] fails. *)
Definition broken_project : Handle :=
  DirectoryHandle "project"
    [ FileHandle "a.txt" (readable "alpha");
      DirectoryHandle "lib"
        [ FileHandle "b.txt" (Returned {| text := Thrown not_readable |}) ]
        None ]
    None.

(** What the picker rejects with when the user dismisses the dialog. *)
Definition abort_error : JsError :=
  {| error_name := "AbortError";
     error_message := "The user aborted a request." |}.

Definition bare_abort_error : JsError :=
  {| error_name := "AbortError"; error_message := "" |}.

Definition window_with (picker : Completion Handle) : Window :=
  {| has_showDirectoryPicker := true; top_is_self := true;
     showDirectoryPicker := picker |}.

Definition window_without_picker : Window :=
  {| has_showDirectoryPicker := false; top_is_self := true;
     showDirectoryPicker := Returned project |}.

(** A store with a tree already shown and a banner left by an earlier
    attempt. *)
Definition opened_store : Store :=
  {| ui := {| files := nested_example;
              selectedFile := Some ("a.txt", "alpha");
              terminalOutput := [];
              error := Some fallback_message |};
     journal := [] |}.

Definition a_txt : FileNode :=
  {| name := "a.txt"; type := file;
     content := Some "alpha"; children := None |}.

Definition b_txt : FileNode :=
  {| name := "b.txt"; type := file;
     content := Some "beta"; children := None |}.

Definition lib_dir : FileNode :=
  {| name := "lib"; type := directory;
     content := None; children := Some [b_txt] |}.

(** ** The page that [Home] returns *)

(** The editor tab: the viewer of the selected file with its close
    button, or the prompt. *)
Inductive EditorPane :=
| FileViewer (title : string) (code : string) (onClose : Action unit)
| EditorPlaceholder (message : string).

(** The terminal panel: one row per line, or the prompt. *)
Inductive TerminalPane :=
| TerminalLines (lines : list string)
| TerminalPlaceholder (message : string).

(** The parts of the returned JSX that depend on the state: the handler
    of the Open Folder button, the alert ([error && ...]: neither [null]
    nor the empty string shows one), the file tree, the editor tab and
    the terminal panel. *)
Record Page := mkPage {
  onOpenFolder : Window -> Action unit;
  alert : option string;
  file_tree : list Div;
  editor : EditorPane;
  terminal : TerminalPane
}.

Definition Home (st : State) : Page :=
  {| onOpenFolder := handleFolderSelect;
     alert := match error st with
              | Some msg => if msg =? "" then None else Some msg
              | None => None
              end;
     file_tree := renderFileTree (files st) 0;
     editor := match selectedFile st with
               | Some (n, c) => FileViewer n c (setSelectedFile None)
               | None => EditorPlaceholder "Select a file to view its contents"
               end;
     terminal := if (0 <? length (terminalOutput st))%nat
                 then TerminalLines (terminalOutput st)
                 else TerminalPlaceholder "Terminal output will appear here" |}.

(** The [<div>] at a position of the rendered tree. *)
Fixpoint div_at (divs : list Div) (p : list nat) : option Div :=
  match p with
  | [] => None
  | i :: p' =>
      match nth_error divs i with
      | Some d =>
          match p' with
          | [] => Some d
          | _ :: _ => div_at (nested d) p'
          end
      | None => None
      end
  end.

(** What a user can do on the page: press Open Folder (the window as it
    is at that moment decides how the picker completes), click the row
    at a position of the tree, press the close button of the viewer. A
    handler runs to its end before the next event; an element that the
    page does not show cannot be clicked. *)
Inductive UserEvent :=
| ClickOpenFolder (window : Window)
| ClickRow (position : list nat)
| ClickClose.

Definition dispatch (ev : UserEvent) (s : Store) : Store :=
  match ev with
  | ClickOpenFolder window => fst (onOpenFolder (Home (ui s)) window s)
  | ClickRow p =>
      match div_at (file_tree (Home (ui s))) p with
      | Some d => fst (onClick d s)
      | None => s
      end
  | ClickClose =>
      match editor (Home (ui s)) with
      | FileViewer _ _ onClose => fst (onClose s)
      | EditorPlaceholder _ => s
      end
  end.

Definition run_events (evs : list UserEvent) (s : Store) : Store :=
  fold_left (fun s ev => dispatch ev s) evs s.

(** The initial values of the four [useState] cells. *)
Definition initial_store : Store :=
  {| ui := {| files := []; selectedFile := None;
              terminalOutput := []; error := None |};
     journal := [] |}.

(** ** Vocabulary of the further properties *)

Section FirstOf.
Variable first_in : Handle -> option JsError.

(** The first failure met along [entries], or the one that ends the
    enumeration. *)
Fixpoint first_of (entries : list Handle) (failure : option JsError)
  : option JsError :=
  match entries with
  | [] => failure
  | entry :: rest =>
      match first_in entry with
      | Some e => Some e
      | None => first_of rest failure
      end
  end.
End FirstOf.

(** The first failure below a handle, depth first in the order of the
    enumeration. *)
Fixpoint first_failure (h : Handle) : option JsError :=
  match h with
  | FileHandle _ (Thrown e) => Some e
  | FileHandle _ (Returned f) =>
      match text f with
      | Thrown e => Some e
      | Returned _ => None
      end
  | DirectoryHandle _ entries failure => first_of first_failure entries failure
  | OtherHandle _ => None
  end.

(** The calls on handles of a complete walk: a directory is enumerated,
    then its entries are visited in order; a file is fetched and then
    decoded. *)
Fixpoint full_trace (h : Handle) : list Effect :=
  match h with
  | FileHandle n _ => [GetFile n; Text n]
  | DirectoryHandle n entries _ => Values n :: flat_map full_trace entries
  | OtherHandle _ => []
  end.

Section CallsUntil.
Variable calls : Handle -> list Effect.

(** The calls along [entries], up to and including those of the first
    entry below which a read fails; nothing of the entries after it. *)
Fixpoint calls_until (entries : list Handle) : list Effect :=
  match entries with
  | [] => []
  | entry :: rest =>
      calls entry ++
      match first_failure entry with
      | Some _ => []
      | None => calls_until rest
      end
  end.
End CallsUntil.

(** The calls on handles up to and including the first one that fails:
    a file whose [getFile()] rejects is not decoded, and the entries
    after a failure are not visited. *)
Fixpoint calls_made (h : Handle) : list Effect :=
  match h with
  | FileHandle n (Thrown _) => [GetFile n]
  | FileHandle n (Returned _) => [GetFile n; Text n]
  | DirectoryHandle n entries _ => Values n :: calls_until calls_made entries
  | OtherHandle _ => []
  end.

(** One read of a directory makes exactly the calls of [calls_made]. *)
Definition read_calls (h : Handle) : Prop :=
  is_directory_handle h = true ->
  forall path s, exists r,
    readDirectory h path s = (logged s (calls_made h), r) /\
    match r with
    | Returned _ => first_failure h = None
    | Thrown e => first_failure h = Some e
    end.

(** The order of the calls of one read of a directory, and the value it
    throws. *)
Definition read_order (h : Handle) : Prop :=
  is_directory_handle h = true ->
  forall path s, exists l r,
    readDirectory h path s = (logged s l, r) /\
    (exists l', full_trace h = l ++ l') /\
    match r with
    | Returned _ => full_trace h = l /\ first_failure h = None
    | Thrown e => first_failure h = Some e
    end.

Definition access_denied : JsError :=
  {| error_name := "NotAllowedError";
     error_message := "Permission to read the directory was denied." |}.

(** [project/{a.txt, lib/...}] where reading [a.txt] fails and, later in
    the walk, the enumeration of [lib] fails too. *)
Definition twice_broken_project : Handle :=
  DirectoryHandle "project"
    [ FileHandle "a.txt" (Returned {| text := Thrown not_readable |});
      DirectoryHandle "lib" [] (Some access_denied) ]
    None.

Definition framed_window : Window :=
  {| has_showDirectoryPicker := true; top_is_self := false;
     showDirectoryPicker := Returned project |}.

(** ** Running actions *)

Lemma logged_nil (s : Store) : logged s [] = s.
Proof. destruct s; unfold logged; simpl. now rewrite app_nil_r. Qed.

Lemma logged_logged (s : Store) (l1 l2 : list Effect) :
  logged (logged s l1) l2 = logged s (l1 ++ l2)%list.
Proof. unfold logged; simpl. now rewrite app_assoc. Qed.

Lemma bind_returned {A B} (m : Action A) (k : A -> Action B) s s' a :
  m s = (s', Returned a) -> bind m k s = k a s'.
Proof. intros H. unfold bind. now rewrite H. Qed.

Lemma bind_thrown {A B} (m : Action A) (k : A -> Action B) s s' e :
  m s = (s', Thrown e) -> bind m k s = (s', Thrown e).
Proof. intros H. unfold bind. now rewrite H. Qed.

Lemma record_run (e : Effect) (s : Store) :
  record e s = (logged s [e], Returned tt).
Proof. reflexivity. Qed.

Lemma await_returned {A} (e : Effect) (a : A) (s : Store) :
  await e (Returned a) s = (logged s [e], Returned a).
Proof. reflexivity. Qed.

Lemma await_thrown {A} (e : Effect) (err : JsError) (s : Store) :
  @await A e (Thrown err) s = (logged s [e], Thrown err).
Proof. reflexivity. Qed.

(** ** Induction on handles *)

Lemma Handle_induction (P : Handle -> Prop) :
  (forall n g, P (FileHandle n g)) ->
  (forall n entries fl, Forall P entries -> P (DirectoryHandle n entries fl)) ->
  (forall n, P (OtherHandle n)) ->
  forall h, P h.
Proof.
  intros Hfile Hdir Hother.
  fix IH 1.
  intros [n g | n entries fl | n].
  - apply Hfile.
  - apply Hdir.
    induction entries as [| e entries IHentries]; constructor.
    + apply IH.
    + exact IHentries.
  - apply Hother.
Qed.

(** ** What [readDirectory] does *)

Lemma for_await_spec (fl : option JsError) (rest : list Handle) :
  Forall read_spec rest ->
  forall path acc s, exists l r,
    for_await readDirectory fl path rest acc s = (logged s l, r) /\
    forallb is_access l = true /\
    match r with
    | Returned nodes =>
        exists ns,
          nodes = (acc ++ ns)%list /\ Snapshot rest ns /\
          existsb faulty rest = false /\ fl = None
    | Thrown e => existsb faulty rest = true \/ fl = Some e
    end.
Proof.
  induction 1 as [| entry rest Hentry _ IH]; intros path acc s.
  - exists []. destruct fl as [e |]; simpl.
    + exists (Thrown e). rewrite logged_nil. auto.
    + exists (Returned acc). rewrite logged_nil.
      repeat split; auto. exists []. rewrite app_nil_r.
      repeat split; auto. constructor.
  - destruct entry as [n [f | e] | n sub sfl | n].
    + (* a file whose getFile() resolves *)
      destruct (text f) as [c | e] eqn:Htext.
      * destruct (IH path
                    (acc ++ [{| name := n; type := file;
                                content := Some c; children := None |}])
                    (logged s [GetFile n; Text n]))
          as (l & r & Hrun & Hacc & Hr).
        exists ([GetFile n; Text n] ++ l), r.
        split; [| split].
        -- simpl for_await.
           rewrite (bind_returned _ _ _ _ _ (await_returned _ _ _)).
           rewrite Htext.
           rewrite (bind_returned _ _ _ _ _ (await_returned _ _ _)).
           rewrite logged_logged. simpl app.
           rewrite Hrun, logged_logged. reflexivity.
        -- simpl. exact Hacc.
        -- destruct r as [nodes | e]; simpl; rewrite Htext; simpl.
           ++ destruct Hr as (ns & -> & Hsnap & Hok & ->).
              eexists. rewrite <- app_assoc. simpl.
              repeat split; auto. constructor; auto.
           ++ exact Hr.
      * exists [GetFile n; Text n], (Thrown e).
        split; [| split].
        -- simpl for_await.
           rewrite (bind_returned _ _ _ _ _ (await_returned _ _ _)).
           rewrite Htext.
           rewrite (bind_thrown _ _ _ _ _ (await_thrown _ _ _)).
           rewrite logged_logged. reflexivity.
        -- reflexivity.
        -- left. simpl. now rewrite Htext.
    + (* a file whose getFile() rejects *)
      exists [GetFile n], (Thrown e).
      split; [| split]; auto.
    + (* a subdirectory *)
      destruct (Hentry (path ++ "/" ++ n)%string s) as (l1 & r1 & Hrun1 & Hacc1 & Hr1).
      destruct r1 as [ch | e].
      * destruct Hr1 as (n' & sub' & Heq & Hsnap1 & Hok1).
        injection Heq as -> -> ->.
        destruct (IH path
                    (acc ++ [{| name := n'; type := directory;
                                content := None; children := Some ch |}])
                    (logged s l1))
          as (l & r & Hrun & Hacc & Hr).
        exists (l1 ++ l), r.
        split; [| split].
        -- simpl for_await.
           rewrite (bind_returned _ _ _ _ _ Hrun1).
           rewrite Hrun, logged_logged. reflexivity.
        -- rewrite forallb_app, Hacc1, Hacc. reflexivity.
        -- change (existsb faulty (DirectoryHandle n' sub' None :: rest))
             with (faulty (DirectoryHandle n' sub' None) || existsb faulty rest).
           simpl faulty. rewrite Hok1. simpl.
           destruct r as [nodes | e].
           ++ destruct Hr as (ns & -> & Hsnap & Hok & ->).
              eexists. rewrite <- app_assoc. simpl.
              repeat split; auto. constructor; auto.
           ++ exact Hr.
      * exists l1, (Thrown e).
        split; [| split]; auto.
        -- simpl for_await. now rewrite (bind_thrown _ _ _ _ _ Hrun1).
        -- left.
           change (existsb faulty (DirectoryHandle n sub sfl :: rest))
             with (faulty (DirectoryHandle n sub sfl) || existsb faulty rest).
           destruct Hr1 as [-> | Hno]; [reflexivity | discriminate Hno].
    + (* an entry of another kind is skipped *)
      destruct (IH path acc s) as (l & r & Hrun & Hacc & Hr).
      exists l, r. split; [| split]; auto.
      destruct r as [nodes | e]; simpl.
      * destruct Hr as (ns & -> & Hsnap & Hok & ->).
        exists ns. repeat split; auto. constructor; auto.
      * exact Hr.
Qed.

Lemma readDirectory_spec (h : Handle) : read_spec h.
Proof.
  induction h as [n g | n entries fl IH | n] using Handle_induction;
    intros path s.
  - exists [], (Thrown {| error_name := "TypeError";
                          error_message := "dirHandle.values is not a function" |}).
    rewrite logged_nil. simpl. auto.
  - destruct (for_await_spec fl entries IH path [] (logged s [Values n]))
      as (l & r & Hrun & Hacc & Hr).
    exists ([Values n] ++ l), r.
    split; [| split].
    + simpl readDirectory.
      rewrite (bind_returned _ _ _ _ _ (record_run _ _)).
      rewrite Hrun, logged_logged. reflexivity.
    + simpl. exact Hacc.
    + destruct r as [nodes | e].
      * destruct Hr as (ns & -> & Hsnap & Hok & ->).
        exists n, entries. auto.
      * left. simpl. destruct Hr as [-> | ->]; auto.
        apply orb_true_r.
  - exists [], (Thrown {| error_name := "TypeError";
                          error_message := "dirHandle.values is not a function" |}).
    rewrite logged_nil. simpl. auto.
Qed.

Lemma readDirectory_returned h path s s' nodes :
  readDirectory h path s = (s', Returned nodes) ->
  exists n entries l,
    h = DirectoryHandle n entries None /\ s' = logged s l /\
    forallb is_access l = true /\ Snapshot entries nodes.
Proof.
  intros Hrun.
  destruct (readDirectory_spec h path s) as (l & r & Hrun' & Hacc & Hr).
  rewrite Hrun in Hrun'. injection Hrun' as -> <-.
  destruct Hr as (n & entries & -> & Hsnap & _).
  exists n, entries, l. auto.
Qed.

Lemma readDirectory_sound n entries fl path s :
  faulty (DirectoryHandle n entries fl) = false ->
  exists l nodes,
    readDirectory (DirectoryHandle n entries fl) path s
      = (logged s l, Returned nodes) /\
    forallb is_access l = true /\ Snapshot entries nodes.
Proof.
  intros Hok.
  destruct (readDirectory_spec (DirectoryHandle n entries fl) path s)
    as (l & r & Hrun & Hacc & Hr).
  destruct r as [nodes | e].
  - destruct Hr as (n' & entries' & Heq & Hsnap & _).
    injection Heq as -> -> ->.
    exists l, nodes. auto.
  - destruct Hr as [Hbad | Hno].
    + rewrite Hbad in Hok. discriminate Hok.
    + discriminate Hno.
Qed.

Lemma readDirectory_faulty h path s :
  faulty h = true ->
  exists l e,
    readDirectory h path s = (logged s l, Thrown e) /\
    forallb is_access l = true.
Proof.
  intros Hbad.
  destruct (readDirectory_spec h path s) as (l & r & Hrun & Hacc & Hr).
  destruct r as [nodes | e].
  - destruct Hr as (n & entries & -> & _ & Hok).
    simpl in Hbad. rewrite Hok in Hbad. discriminate Hbad.
  - exists l, e. auto.
Qed.

(** ** Consequences of being a snapshot *)

Lemma Snapshot_Mirrors entries nodes :
  Snapshot entries nodes -> Mirrors entries nodes.
Proof.
  induction 1.
  - constructor.
  - apply Mirrors_file; auto.
  - eapply Mirrors_directory; simpl; eauto.
  - apply Mirrors_other; auto.
Qed.

Lemma Snapshot_length entries nodes :
  Snapshot entries nodes ->
  length nodes = length (filter is_file_handle entries)
                 + length (filter is_directory_handle entries).
Proof.
  induction 1; simpl; lia.
Qed.

Lemma Snapshot_names entries nodes :
  Snapshot entries nodes ->
  map name nodes = map handle_name (filter listed entries).
Proof.
  induction 1; simpl; congruence.
Qed.

Lemma Snapshot_well_formed entries nodes :
  Snapshot entries nodes -> forallb well_formed nodes = true.
Proof.
  induction 1; simpl; auto.
  rewrite IHSnapshot1, IHSnapshot2. reflexivity.
Qed.

Lemma Snapshot_nth entries nodes :
  Snapshot entries nodes ->
  forall i h,
    nth_error (filter listed entries) i = Some h ->
    exists node, nth_error nodes i = Some node /\ Snapshot [h] [node].
Proof.
  induction 1 as [| n f c rest nodes Htext _ IH
                  | n sub ch rest nodes Hsub _ _ IH
                  | n rest nodes _ IH]; intros i h Hnth.
  - destruct i; discriminate Hnth.
  - destruct i as [| i]; simpl in Hnth.
    + injection Hnth as <-. eexists. split; [reflexivity |].
      constructor; [assumption | constructor].
    + apply IH in Hnth. exact Hnth.
  - destruct i as [| i]; simpl in Hnth.
    + injection Hnth as <-. eexists. split; [reflexivity |].
      constructor; [assumption | constructor].
    + apply IH in Hnth. exact Hnth.
  - simpl in Hnth. apply IH in Hnth. exact Hnth.
Qed.

Lemma Snapshot_file_at entries nodes :
  Snapshot entries nodes ->
  forall p m g,
    entry_at entries p = Some (FileHandle m g) ->
    exists f c,
      g = Returned f /\ text f = Returned c /\
      node_at nodes p
        = Some {| name := m; type := file;
                  content := Some c; children := None |}.
Proof.
  intros Hsnap p. revert entries nodes Hsnap.
  induction p as [| i p IH]; intros entries nodes Hsnap m g Hat.
  - discriminate Hat.
  - simpl in Hat.
    destruct (nth_error (filter listed entries) i) as [h |] eqn:Hnth;
      [| discriminate Hat].
    destruct (Snapshot_nth _ _ Hsnap _ _ Hnth) as (node & Hnode & Hone).
    simpl. rewrite Hnode.
    destruct p as [| j p].
    + injection Hat as ->.
      inversion Hone; subst. eauto.
    + destruct h as [n g' | n sub fl | n]; try discriminate Hat.
      inversion Hone; subst. simpl children.
      eapply IH; eauto.
Qed.

(** ** What [handleFolderSelect] does *)

Lemma setError_run e s :
  setError e s
  = ({| ui := with_error e (ui s); journal := journal s ++ [SetError e] |},
     Returned tt).
Proof. reflexivity. Qed.

Lemma setFiles_run f s :
  setFiles f s
  = ({| ui := with_files f (ui s); journal := journal s ++ [SetFiles f] |},
     Returned tt).
Proof. reflexivity. Qed.

Lemma setSelectedFile_run sel s :
  setSelectedFile sel s
  = ({| ui := with_selectedFile sel (ui s);
        journal := journal s ++ [SetSelectedFile sel] |},
     Returned tt).
Proof. reflexivity. Qed.

Lemma on_error_run e s :
  on_error e s
  = ({| ui := with_error (Some (banner e)) (ui s);
        journal := journal s ++ [ConsoleError e; SetError (Some (banner e))] |},
     Returned tt).
Proof.
  unfold on_error, banner, console_error.
  rewrite (bind_returned _ _ _ _ _ (record_run _ _)).
  destruct (error_name e =? "SecurityError");
    rewrite setError_run; unfold logged; cbn [ui journal];
    rewrite <- app_assoc; reflexivity.
Qed.

(** The capability is missing: two calls of [setError] and nothing else. *)
Lemma handleFolderSelect_unsupported window s :
  has_showDirectoryPicker window = false ->
  handleFolderSelect window s
  = ({| ui := with_error (Some unsupported_message) (ui s);
        journal := journal s
                   ++ [SetError None; SetError (Some unsupported_message)] |},
     Returned tt).
Proof.
  intros Hhas.
  unfold handleFolderSelect, isFileSystemApiSupported.
  rewrite Hhas. cbv [negb].
  rewrite (bind_returned _ _ _ _ _ (setError_run _ _)).
  rewrite setError_run. cbn [ui journal].
  rewrite <- app_assoc. reflexivity.
Qed.

(** Inside a frame: the thrown [Error] reaches the [catch] clause before
    the picker is called. *)
Lemma handleFolderSelect_framed window s :
  has_showDirectoryPicker window = true ->
  top_is_self window = false ->
  handleFolderSelect window s
  = ({| ui := with_error (Some iframe_message) (ui s);
        journal := journal s
                   ++ [SetError None; ConsoleError (new_Error iframe_message);
                       SetError (Some iframe_message)] |},
     Returned tt).
Proof.
  intros Hhas Htop.
  unfold handleFolderSelect, isFileSystemApiSupported.
  rewrite Hhas, Htop. cbv [negb].
  rewrite (bind_returned _ _ _ _ _ (setError_run _ _)).
  unfold try_catch.
  rewrite (bind_thrown _ _ _ _ _
             (eq_refl : throw (new_Error iframe_message) _ = (_, Thrown _))).
  rewrite on_error_run. cbn [ui journal].
  rewrite <- app_assoc. reflexivity.
Qed.

(** The picker rejects: the [catch] clause sets the banner of the thrown
    value. *)
Lemma handleFolderSelect_rejected window s e :
  has_showDirectoryPicker window = true ->
  top_is_self window = true ->
  showDirectoryPicker window = Thrown e ->
  handleFolderSelect window s
  = ({| ui := with_error (Some (banner e)) (ui s);
        journal := journal s
                   ++ [SetError None; ShowDirectoryPicker;
                       ConsoleError e; SetError (Some (banner e))] |},
     Returned tt).
Proof.
  intros Hhas Htop Hpick.
  unfold handleFolderSelect, isFileSystemApiSupported.
  rewrite Hhas, Htop, Hpick. cbv [negb].
  rewrite (bind_returned _ _ _ _ _ (setError_run _ _)).
  unfold try_catch.
  rewrite (bind_returned _ _ _ _ _ (eq_refl : ret tt _ = (_, Returned tt))).
  rewrite (bind_thrown _ _ _ _ _ (await_thrown _ _ _)).
  rewrite on_error_run. unfold logged. cbn [ui journal].
  rewrite <- !app_assoc. reflexivity.
Qed.

(** The picker resolves: the outcome of the read decides between
    [setFiles] and the [catch] clause. *)
Lemma handleFolderSelect_picked window s d :
  has_showDirectoryPicker window = true ->
  top_is_self window = true ->
  showDirectoryPicker window = Returned d ->
  exists s1 l r,
    readDirectory d "" s1 = (logged s1 l, r) /\
    forallb is_access l = true /\
    handleFolderSelect window s
    = match r with
      | Returned nodes =>
          ({| ui := with_files nodes (with_error None (ui s));
              journal := journal s
                         ++ [SetError None; ShowDirectoryPicker]
                         ++ l ++ [SetFiles nodes] |},
           Returned tt)
      | Thrown e =>
          ({| ui := with_error (Some (banner e)) (ui s);
              journal := journal s
                         ++ [SetError None; ShowDirectoryPicker]
                         ++ l ++ [ConsoleError e; SetError (Some (banner e))] |},
           Returned tt)
      end.
Proof.
  intros Hhas Htop Hpick.
  set (s1 := {| ui := with_error None (ui s);
                journal := journal s ++ [SetError None; ShowDirectoryPicker] |}).
  destruct (readDirectory_spec d "" s1) as (l & r & Hrun & Hacc & _).
  exists s1, l, r. split; [exact Hrun | split; [exact Hacc |]].
  unfold handleFolderSelect, isFileSystemApiSupported.
  rewrite Hhas, Htop, Hpick. cbv [negb].
  rewrite (bind_returned _ _ _ _ _ (setError_run _ _)).
  unfold try_catch.
  rewrite (bind_returned _ _ _ _ _ (eq_refl : ret tt _ = (_, Returned tt))).
  rewrite (bind_returned _ _ _ _ _ (await_returned _ _ _)).
  replace (logged _ [ShowDirectoryPicker]) with s1
    by (unfold s1, logged; cbn [ui journal];
        rewrite <- app_assoc; reflexivity).
  destruct r as [nodes | e].
  - rewrite (bind_returned _ _ _ _ _ Hrun), setFiles_run.
    unfold s1, logged. cbn [ui journal].
    rewrite <- !app_assoc. reflexivity.
  - rewrite (bind_thrown _ _ _ _ _ Hrun), on_error_run.
    unfold s1, logged. cbn [ui journal].
    rewrite <- !app_assoc. reflexivity.
Qed.

(** ** Induction on trees *)

Lemma FileNode_induction (P : FileNode -> Prop) :
  (forall n t c, P (mkFileNode n t c None)) ->
  (forall n t c ch, Forall P ch -> P (mkFileNode n t c (Some ch))) ->
  forall node, P node.
Proof.
  intros Hleaf Hnode.
  fix IH 1.
  intros [n t c [ch |]].
  - apply Hnode.
    induction ch as [| x ch IHch]; constructor.
    + apply IH.
    + exact IHch.
  - apply Hleaf.
Qed.

Lemma well_formed_all_nodes (node : FileNode) :
  well_formed node = true ->
  forall x, In x (all_nodes node) -> one_of_content_children x.
Proof.
  induction node as [n t c | n t c ch IH] using FileNode_induction;
    intros Hwf x Hin.
  - destruct Hin as [<- | []].
    destruct t, c as [c |]; try discriminate Hwf.
    left. simpl. eauto.
  - destruct t, c as [c |]; try discriminate Hwf.
    simpl in Hwf. destruct Hin as [<- | Hin].
    + right. simpl. eauto.
    + simpl in Hin. apply in_flat_map in Hin as (y & Hy & Hx).
      rewrite Forall_forall in IH.
      apply (IH y Hy); [| exact Hx].
      rewrite forallb_forall in Hwf. apply Hwf, Hy.
Qed.

(** ** What [renderFileTree] emits *)

Lemma margins_add_up (level : nat) :
  8 * level * (level - 1) + level * 16 = 8 * level * (level + 1).
Proof.
  destruct level as [| k].
  - reflexivity.
  - rewrite Nat.sub_succ, Nat.sub_0_r. nia.
Qed.

Lemma rows_render_node (node : FileNode) :
  forall level outer,
    rows (outer + 8 * level * (level - 1)) (render_node level node)
    = map (fun row => (outer + fst (indent_at row), snd row))
          (preorder level node).
Proof.
  induction node as [n t c | n t c ch IH] using FileNode_induction;
    intros level outer.
  - cbn [rows render_node marginLeft label nested children
         preorder name flat_map map indent_at fst snd].
    rewrite <- Nat.add_assoc, margins_add_up. reflexivity.
  - cbn [rows render_node marginLeft label nested children
         preorder name map indent_at fst snd].
    rewrite <- Nat.add_assoc, margins_add_up.
    f_equal.
    replace (8 * level * (level + 1))
      with (8 * (level + 1) * (level + 1 - 1))
      by (rewrite Nat.add_sub; nia).
    rewrite <- (Nat.add_1_r level).
    induction IH as [| x ch Hx _ IHch].
    + reflexivity.
    + cbn [map flat_map]. rewrite map_app, Hx, IHch. reflexivity.
Qed.

Lemma rows_renderFileTree (nodes : list FileNode) :
  flat_map (rows 0) (renderFileTree nodes 0)
  = map indent_at (flat_map (preorder 0) nodes).
Proof.
  unfold renderFileTree.
  induction nodes as [| x nodes IH].
  - reflexivity.
  - cbn [map flat_map].
    rewrite map_app, IH.
    rewrite (rows_render_node x 0 0 : rows 0 _ = _).
    reflexivity.
Qed.

(** ** The claims *)

(** C1, as the code has it. When the directory picker rejects, whatever
    the reason (a user cancellation included), [files], the selection and
    the terminal output are left as they were, and the error banner is
    set: to the security message when the thrown value's name is
    [SecurityError], otherwise to the thrown value's message, or to the
    fallback message when that message is empty. *)
Theorem picker_rejection_sets_banner window s e :
  has_showDirectoryPicker window = true ->
  top_is_self window = true ->
  showDirectoryPicker window = Thrown e ->
  let s' := fst (handleFolderSelect window s) in
  files (ui s') = files (ui s) /\
  selectedFile (ui s') = selectedFile (ui s) /\
  terminalOutput (ui s') = terminalOutput (ui s) /\
  error (ui s')
  = Some (if error_name e =? "SecurityError" then security_message
          else if error_message e =? "" then fallback_message
               else error_message e) /\
  error (ui s') <> None.
Proof.
  intros Hhas Htop Hpick s'. subst s'.
  rewrite (handleFolderSelect_rejected window s e Hhas Htop Hpick).
  cbn [fst ui with_error files selectedFile terminalOutput error].
  repeat split; discriminate.
Qed.

Lemma picker_rejection_sets_banner_witness :
  let s' := fst (handleFolderSelect (window_with (Thrown abort_error))
                                    opened_store) in
  files (ui s') = nested_example /\
  selectedFile (ui s') = Some ("a.txt", "alpha") /\
  terminalOutput (ui s') = [] /\
  error (ui s') = Some "The user aborted a request." /\
  error (ui s') <> None.
Proof.
  exact (picker_rejection_sets_banner
           (window_with (Thrown abort_error)) opened_store abort_error
           eq_refl eq_refl eq_refl).
Defined.

(** C1, as stated, fails: after a cancellation of the picker the error
    banner is set, to the message of the thrown value or, when that is
    empty, to the fallback message. *)
Lemma cancellation_is_not_silent :
  error_name abort_error = "AbortError" /\
  error (ui (fst (handleFolderSelect (window_with (Thrown abort_error))
                                     {| ui := mkState [] None [] None;
                                        journal := [] |})))
  = Some "The user aborted a request." /\
  error (ui (fst (handleFolderSelect (window_with (Thrown bare_abort_error))
                                     {| ui := mkState [] None [] None;
                                        journal := [] |})))
  = Some "Failed to open folder. Please try again." /\
  ~ (forall window s e,
        has_showDirectoryPicker window = true ->
        top_is_self window = true ->
        showDirectoryPicker window = Thrown e ->
        error_name e = "AbortError" ->
        error (ui (fst (handleFolderSelect window s))) = None /\
        ui (fst (handleFolderSelect window s)) = ui s).
Proof.
  repeat split; try reflexivity.
  intros H.
  destruct (H (window_with (Thrown abort_error))
              {| ui := mkState [] None [] None; journal := [] |}
              abort_error eq_refl eq_refl eq_refl eq_refl) as [Hnone _].
  discriminate Hnone.
Qed.

(** C2. When the picker resolves to a handle below which some read fails
    (a directory enumeration or a file read, at any depth), the read
    throws, [setFiles] is never called, [files], the selection and the
    terminal output are left as they were, and the error banner is set
    from the thrown value. *)
Theorem failed_read_commits_nothing window s d :
  has_showDirectoryPicker window = true ->
  top_is_self window = true ->
  showDirectoryPicker window = Returned d ->
  faulty d = true ->
  let s' := fst (handleFolderSelect window s) in
  exists s1 s2 e l,
    readDirectory d "" s1 = (s2, Thrown e) /\
    journal s' = journal s ++ l /\
    existsb is_SetFiles l = false /\
    files (ui s') = files (ui s) /\
    selectedFile (ui s') = selectedFile (ui s) /\
    terminalOutput (ui s') = terminalOutput (ui s) /\
    error (ui s') = Some (banner e).
Proof.
  intros Hhas Htop Hpick Hbad s'. subst s'.
  destruct (handleFolderSelect_picked window s d Hhas Htop Hpick)
    as (s1 & l & r & Hrun & Hacc & ->).
  destruct (readDirectory_faulty d "" s1 Hbad) as (l' & e & Hrun' & _).
  rewrite Hrun' in Hrun. injection Hrun as _ <-.
  exists s1, (logged s1 l'), e.
  eexists. split; [exact Hrun' |].
  cbn [fst ui journal with_error files selectedFile terminalOutput error].
  split; [reflexivity |].
  split; [| repeat split].
  change (existsb is_SetFiles
            ([SetError None; ShowDirectoryPicker]
             ++ l ++ [ConsoleError e; SetError (Some (banner e))]) = false).
  rewrite !existsb_app. simpl. rewrite orb_false_r.
  clear - Hacc. induction l as [| x l IH]; simpl in *.
  - reflexivity.
  - apply andb_prop in Hacc as [Hx Hl]. rewrite (IH Hl).
    destruct x; try discriminate Hx; reflexivity.
Qed.

Lemma failed_read_commits_nothing_witness :
  let s' := fst (handleFolderSelect (window_with (Returned broken_project))
                                    opened_store) in
  exists s1 s2 e l,
    readDirectory broken_project "" s1 = (s2, Thrown e) /\
    journal s' = journal opened_store ++ l /\
    existsb is_SetFiles l = false /\
    files (ui s') = nested_example /\
    selectedFile (ui s') = Some ("a.txt", "alpha") /\
    terminalOutput (ui s') = [] /\
    error (ui s') = Some (banner e).
Proof.
  exact (failed_read_commits_nothing
           (window_with (Returned broken_project)) opened_store broken_project
           eq_refl eq_refl eq_refl eq_refl).
Defined.

(** C3. Reading a directory below which no read fails returns, and the
    returned list has exactly as many nodes as the directory has file
    entries plus subdirectory entries, carries their names in the order
    of the enumeration, and mirrors the entries one node per entry by
    name and kind, the [children] of every subdirectory's node mirroring
    that subdirectory's entries in the same way. *)
Theorem readDirectory_mirrors_directory n entries fl path s :
  faulty (DirectoryHandle n entries fl) = false ->
  exists s' nodes,
    readDirectory (DirectoryHandle n entries fl) path s = (s', Returned nodes) /\
    length nodes = length (filter is_file_handle entries)
                   + length (filter is_directory_handle entries) /\
    map name nodes = map handle_name (filter listed entries) /\
    Mirrors entries nodes.
Proof.
  intros Hok.
  destruct (readDirectory_sound n entries fl path s Hok)
    as (l & nodes & Hrun & _ & Hsnap).
  exists (logged s l), nodes.
  split; [exact Hrun |].
  split; [apply Snapshot_length, Hsnap |].
  split; [apply Snapshot_names, Hsnap | apply Snapshot_Mirrors, Hsnap].
Qed.

Lemma readDirectory_mirrors_directory_witness :
  faulty project = false /\
  exists s' nodes,
    readDirectory project "" opened_store = (s', Returned nodes) /\
    length nodes = 1 + 1 /\
    map name nodes = ["a.txt"; "lib"] /\
    Mirrors project_entries nodes.
Proof.
  split.
  - reflexivity.
  - exact (readDirectory_mirrors_directory
             "project" project_entries None "" opened_store eq_refl).
Defined.

(** C4. In every tree that [readDirectory] returns, at the position of
    every file entry (at any depth) stands a file node with the entry's
    name whose [content] is exactly the text that [text()] resolved to. *)
Theorem file_content_is_text_read h path s s' nodes :
  readDirectory h path s = (s', Returned nodes) ->
  exists n entries,
    h = DirectoryHandle n entries None /\
    forall p m g,
      entry_at entries p = Some (FileHandle m g) ->
      exists f c,
        g = Returned f /\ text f = Returned c /\
        node_at nodes p
          = Some {| name := m; type := file;
                    content := Some c; children := None |}.
Proof.
  intros Hrun.
  destruct (readDirectory_returned h path s s' nodes Hrun)
    as (n & entries & l & -> & _ & _ & Hsnap).
  exists n, entries. split; [reflexivity |].
  apply Snapshot_file_at, Hsnap.
Qed.

Lemma file_content_is_text_read_witness :
  exists s' nodes,
    readDirectory project "" opened_store = (s', Returned nodes) /\
    entry_at project_entries [1; 0] = Some (FileHandle "b.txt" (readable "beta")) /\
    node_at nodes [1; 0] = Some b_txt.
Proof.
  eexists. eexists. split; [reflexivity |].
  split; [reflexivity |].
  destruct (file_content_is_text_read
              project "" opened_store _ _ eq_refl)
    as (n & entries & Heq & Hat).
  injection Heq as <- <-.
  destruct (Hat [1; 0] "b.txt" (readable "beta") eq_refl)
    as (f & c & Hg & Htext & Hnode).
  injection Hg as <-. injection Htext as <-.
  exact Hnode.
Defined.

(** C5. In every tree that [readDirectory] returns, every node, at any
    depth, has exactly one of [content] and [children], as its [type]
    says: a file node has [content] and no [children], a directory node
    has [children] and no [content]. *)
Theorem built_nodes_have_content_xor_children h path s s' nodes :
  readDirectory h path s = (s', Returned nodes) ->
  forallb well_formed nodes = true /\
  forall node,
    In node (flat_map all_nodes nodes) ->
    (type node = file /\
     (exists c, content node = Some c) /\ children node = None)
    \/
    (type node = directory /\
     content node = None /\ exists ch, children node = Some ch).
Proof.
  intros Hrun.
  destruct (readDirectory_returned h path s s' nodes Hrun)
    as (n & entries & l & _ & _ & _ & Hsnap).
  pose proof (Snapshot_well_formed entries nodes Hsnap) as Hwf.
  split; [exact Hwf |].
  intros node Hin.
  apply in_flat_map in Hin as (top & Htop & Hnode).
  rewrite forallb_forall in Hwf.
  exact (well_formed_all_nodes top (Hwf top Htop) node Hnode).
Qed.

Lemma built_nodes_have_content_xor_children_witness :
  exists s' nodes,
    readDirectory project "" opened_store = (s', Returned nodes) /\
    forallb well_formed nodes = true /\
    In b_txt (flat_map all_nodes nodes) /\
    In lib_dir (flat_map all_nodes nodes).
Proof.
  eexists. eexists. split; [reflexivity |].
  split.
  - exact (proj1 (built_nodes_have_content_xor_children
                    project "" opened_store _ _ eq_refl)).
  - simpl. auto.
Defined.

(** C6. When [window] has no [showDirectoryPicker], the action calls
    [setError] twice and nothing else: neither the picker nor any handle
    is touched, the banner is the message that starts with "Your browser
    does not support the File System Access API", and [files], the
    selection and the terminal output are left as they were. *)
Theorem unsupported_browser_reports_at_once window s :
  has_showDirectoryPicker window = false ->
  let s' := fst (handleFolderSelect window s) in
  exists msg,
    error (ui s') = Some msg /\
    prefix "Your browser does not support the File System Access API" msg
    = true /\
    journal s' = journal s ++ [SetError None; SetError (Some msg)] /\
    existsb touches_file_system [SetError None; SetError (Some msg)] = false /\
    files (ui s') = files (ui s) /\
    selectedFile (ui s') = selectedFile (ui s) /\
    terminalOutput (ui s') = terminalOutput (ui s).
Proof.
  intros Hhas s'. subst s'.
  rewrite (handleFolderSelect_unsupported window s Hhas).
  exists unsupported_message.
  cbn [fst ui journal with_error files selectedFile terminalOutput error].
  repeat split.
Qed.

Lemma unsupported_browser_reports_at_once_witness :
  let s' := fst (handleFolderSelect window_without_picker opened_store) in
  exists msg,
    error (ui s') = Some msg /\
    prefix "Your browser does not support the File System Access API" msg
    = true /\
    journal s' = journal opened_store ++ [SetError None; SetError (Some msg)] /\
    existsb touches_file_system [SetError None; SetError (Some msg)] = false /\
    files (ui s') = nested_example /\
    selectedFile (ui s') = Some ("a.txt", "alpha") /\
    terminalOutput (ui s') = [].
Proof.
  exact (unsupported_browser_reports_at_once
           window_without_picker opened_store eq_refl).
Defined.

(** C7. Clicking the row of file node [A] and then the row of file node
    [B] leaves the selection [(name B, content B)] and nothing of [A]:
    the state is the one that clicking [B] alone gives, from the empty
    selection as from any other. *)
Theorem second_selection_replaces_first A B la lb s :
  type A = file ->
  type B = file ->
  let sA := fst (onClick (render_node la A) s) in
  let sB := fst (onClick (render_node lb B) sA) in
  selectedFile (ui sA) = Some (name A, content_or_empty (content A)) /\
  selectedFile (ui sB) = Some (name B, content_or_empty (content B)) /\
  (forall c, content B = Some c -> selectedFile (ui sB) = Some (name B, c)) /\
  ui sB = ui (fst (onClick (render_node lb B) s)) /\
  ui sB = ui (fst (onClick (render_node lb B)
                     {| ui := with_selectedFile None (ui s);
                        journal := journal s |})).
Proof.
  intros HA HB sA sB. subst sA sB.
  destruct A as [nA tA cA chA], B as [nB tB cB chB].
  simpl in HA, HB. subst tA tB.
  cbn [render_node onClick click type name content].
  rewrite !setSelectedFile_run.
  cbn [fst ui journal with_selectedFile
       files selectedFile terminalOutput error].
  repeat split.
  intros c ->. reflexivity.
Qed.

Lemma second_selection_replaces_first_witness :
  let sA := fst (onClick (render_node 1 a_txt) opened_store) in
  let sB := fst (onClick (render_node 2 b_txt) sA) in
  selectedFile (ui sA) = Some ("a.txt", "alpha") /\
  selectedFile (ui sB) = Some ("b.txt", "beta") /\
  (forall c, content b_txt = Some c ->
             selectedFile (ui sB) = Some ("b.txt", c)) /\
  ui sB = ui (fst (onClick (render_node 2 b_txt) opened_store)) /\
  ui sB = ui (fst (onClick (render_node 2 b_txt)
                     {| ui := with_selectedFile None (ui opened_store);
                        journal := journal opened_store |})).
Proof.
  exact (second_selection_replaces_first
           a_txt b_txt 1 2 opened_store eq_refl eq_refl).
Defined.

(** C8. The rows that [renderFileTree] emits, read in document order, are
    the nodes of the tree in depth-first pre-order, and every [<div>] is
    given a left margin of 16 px times its level; but the [<div>] of a
    node lies inside the [<div>] of its parent, so the margins add up
    and a row at depth [d] is indented 8 * d * (d + 1) px, which is not
    proportional to its depth. For [src/{a.txt, lib/{b.txt}}], [src] is
    at depth 0, [a.txt] and [lib] at depth 1 and [b.txt] at depth 2, and
    their indents are 0, 16, 16 and 48 px: no factor times the depth. *)
Theorem nested_rows_add_their_margins :
  (forall nodes,
      flat_map (rows 0) (renderFileTree nodes 0)
      = map (fun row => (8 * fst row * (fst row + 1), snd row))
            (flat_map (preorder 0) nodes)) /\
  (forall node level, marginLeft (render_node level node) = level * 16) /\
  flat_map (preorder 0) nested_example
  = [(0, "src"); (1, "a.txt"); (1, "lib"); (2, "b.txt")] /\
  flat_map (rows 0) (renderFileTree nested_example 0)
  = [(0, "src"); (16, "a.txt"); (16, "lib"); (48, "b.txt")] /\
  (forall k,
      map fst (flat_map (rows 0) (renderFileTree nested_example 0))
      <> map (fun row => k * fst row) (flat_map (preorder 0) nested_example)).
Proof.
  split; [exact rows_renderFileTree |].
  split; [intros [n t c ch] level; reflexivity |].
  split; [reflexivity |].
  split; [reflexivity |].
  intros k H.
  cbn in H.
  injection H as _ H16 _ H48.
  lia.
Qed.

Lemma nested_rows_add_their_margins_witness :
  map fst (flat_map (rows 0) (renderFileTree nested_example 0))
  = [0; 16; 16; 48] /\
  map fst (flat_map (rows 0) (renderFileTree nested_example 0))
  <> map (fun row => 16 * fst row) (flat_map (preorder 0) nested_example).
Proof.
  split.
  - reflexivity.
  - exact (proj2 (proj2 (proj2 (proj2 nested_rows_add_their_margins))) 16).
Defined.

(** C9. The click handler of the row of a directory node returns the
    store as it was, journal included; a click that changes anything was
    on the row of a file node, and changes the selection only. *)
Theorem directory_row_click_changes_nothing node level s :
  (type node = directory ->
   onClick (render_node level node) s = (s, Returned tt)) /\
  (fst (onClick (render_node level node) s) <> s ->
   type node = file /\
   ui (fst (onClick (render_node level node) s))
   = with_selectedFile
       (Some (name node, content_or_empty (content node))) (ui s)).
Proof.
  destruct node as [n t c ch].
  cbn [render_node onClick click type name content].
  destruct t.
  - split; [discriminate |].
    intros _. split; reflexivity.
  - split; [reflexivity |].
    intros Hchanged. exfalso. apply Hchanged. reflexivity.
Qed.

Lemma directory_row_click_changes_nothing_witness :
  onClick (render_node 1 lib_dir) opened_store = (opened_store, Returned tt) /\
  ui (fst (onClick (render_node 2 b_txt) opened_store))
  = with_selectedFile (Some ("b.txt", "beta")) (ui opened_store).
Proof.
  split.
  - exact (proj1 (directory_row_click_changes_nothing lib_dir 1 opened_store)
                 eq_refl).
  - refine (proj2 (proj2 (directory_row_click_changes_nothing
                            b_txt 2 opened_store) _)).
    discriminate.
Defined.

(** C10. Every run of [handleFolderSelect] starts with [setError(null)],
    so its outcome does not depend on the error it finds; and when the
    picker resolves to a directory that is read without failure, the run
    ends with no error and with the tree just read in [files]. *)
Theorem folder_pick_clears_error_first window s :
  (exists l,
      journal (fst (handleFolderSelect window s))
      = journal s ++ SetError None :: l) /\
  (forall stale,
      handleFolderSelect window
        {| ui := with_error stale (ui s); journal := journal s |}
      = handleFolderSelect window s) /\
  (forall n entries fl,
      has_showDirectoryPicker window = true ->
      top_is_self window = true ->
      showDirectoryPicker window = Returned (DirectoryHandle n entries fl) ->
      faulty (DirectoryHandle n entries fl) = false ->
      error (ui (fst (handleFolderSelect window s))) = None /\
      Snapshot entries (files (ui (fst (handleFolderSelect window s))))).
Proof.
  split; [| split].
  - destruct (has_showDirectoryPicker window) eqn:Hhas.
    + destruct (top_is_self window) eqn:Htop.
      * destruct (showDirectoryPicker window) as [d | e] eqn:Hpick.
        -- destruct (handleFolderSelect_picked window s d Hhas Htop Hpick)
             as (s1 & l & r & _ & _ & ->).
           destruct r; eexists; reflexivity.
        -- rewrite (handleFolderSelect_rejected window s e Hhas Htop Hpick).
           eexists; reflexivity.
      * rewrite (handleFolderSelect_framed window s Hhas Htop).
        eexists; reflexivity.
    + rewrite (handleFolderSelect_unsupported window s Hhas).
      eexists; reflexivity.
  - intros stale. unfold handleFolderSelect.
    unfold bind at 1. unfold bind at 3. reflexivity.
  - intros n entries fl Hhas Htop Hpick Hok.
    destruct (handleFolderSelect_picked window s _ Hhas Htop Hpick)
      as (s1 & l & r & Hrun & _ & ->).
    destruct (readDirectory_sound n entries fl "" s1 Hok)
      as (l' & nodes & Hrun' & _ & Hsnap).
    rewrite Hrun' in Hrun. injection Hrun as _ <-.
    split; [reflexivity | exact Hsnap].
Qed.

Lemma folder_pick_clears_error_first_witness :
  error (ui opened_store) = Some fallback_message /\
  error (ui (fst (handleFolderSelect (window_with (Returned project))
                                     opened_store))) = None /\
  Snapshot project_entries
    (files (ui (fst (handleFolderSelect (window_with (Returned project))
                                        opened_store)))).
Proof.
  split.
  - reflexivity.
  - exact (proj2 (proj2 (folder_pick_clears_error_first
                           (window_with (Returned project)) opened_store))
                 "project" project_entries None
                 eq_refl eq_refl eq_refl eq_refl).
Defined.

(** ** Further properties of [readDirectory] *)

Lemma for_await_ignores_path (fl : option JsError) (rest : list Handle) :
  Forall (fun h => forall p1 p2 s,
              readDirectory h p1 s = readDirectory h p2 s) rest ->
  forall p1 p2 acc s,
    for_await readDirectory fl p1 rest acc s
    = for_await readDirectory fl p2 rest acc s.
Proof.
  induction 1 as [| entry rest Hentry _ IH]; intros p1 p2 acc s.
  - reflexivity.
  - destruct entry as [n g | n sub sfl | n]; cbn [for_await].
    + unfold bind at 1 3.
      destruct (await (GetFile n) g s) as [s1 [f | e]]; [| reflexivity].
      unfold bind at 1 2.
      destruct (await (Text n) (text f) s1) as [s2 [c | e]]; [| reflexivity].
      apply IH.
    + unfold bind at 1 2.
      rewrite (Hentry (p1 ++ "/" ++ n)%string (p2 ++ "/" ++ n)%string s).
      destruct (readDirectory (DirectoryHandle n sub sfl)
                  (p2 ++ "/" ++ n)%string s) as [s1 [ch | e]];
        [| reflexivity].
      apply IH.
    + apply IH.
Qed.

Lemma for_await_order (fl : option JsError) (rest : list Handle) :
  Forall read_order rest ->
  forall path acc s, exists l r,
    for_await readDirectory fl path rest acc s = (logged s l, r) /\
    (exists l', flat_map full_trace rest = l ++ l') /\
    match r with
    | Returned _ =>
        flat_map full_trace rest = l /\ first_of first_failure rest fl = None
    | Thrown e => first_of first_failure rest fl = Some e
    end.
Proof.
  induction 1 as [| entry rest Hentry _ IH]; intros path acc s.
  - exists []. destruct fl as [e |]; simpl.
    + exists (Thrown e). rewrite logged_nil.
      split; [reflexivity | split; [exists []; reflexivity | reflexivity]].
    + exists (Returned acc). rewrite logged_nil.
      split; [reflexivity | split; [exists []; reflexivity | auto]].
  - destruct entry as [n [f | e] | n sub sfl | n].
    + destruct (text f) as [c | e] eqn:Htext.
      * destruct (IH path
                    (acc ++ [{| name := n; type := file;
                                content := Some c; children := None |}])
                    (logged s [GetFile n; Text n]))
          as (l & r & Hrun & [l' Hpre] & Hr).
        exists ([GetFile n; Text n] ++ l), r.
        split; [| split].
        -- simpl for_await.
           rewrite (bind_returned _ _ _ _ _ (await_returned _ _ _)).
           rewrite Htext.
           rewrite (bind_returned _ _ _ _ _ (await_returned _ _ _)).
           rewrite logged_logged. simpl app.
           rewrite Hrun, logged_logged. reflexivity.
        -- exists l'. simpl. rewrite Hpre. reflexivity.
        -- simpl. rewrite Htext.
           destruct r as [nodes | e].
           ++ destruct Hr as [<- Hnone]. auto.
           ++ exact Hr.
      * exists [GetFile n; Text n], (Thrown e).
        split; [| split].
        -- simpl for_await.
           rewrite (bind_returned _ _ _ _ _ (await_returned _ _ _)).
           rewrite Htext.
           rewrite (bind_thrown _ _ _ _ _ (await_thrown _ _ _)).
           rewrite logged_logged. reflexivity.
        -- exists (flat_map full_trace rest). reflexivity.
        -- simpl. rewrite Htext. reflexivity.
    + exists [GetFile n], (Thrown e).
      split; [reflexivity | split; [| reflexivity]].
      exists (Text n :: flat_map full_trace rest). reflexivity.
    + destruct (Hentry eq_refl (path ++ "/" ++ n)%string s)
        as (l1 & r1 & Hrun1 & [l1' Hpre1] & Hr1).
      destruct r1 as [ch | e].
      * destruct Hr1 as [Hfull1 Hnone1].
        destruct (IH path
                    (acc ++ [{| name := n; type := directory;
                                content := None; children := Some ch |}])
                    (logged s l1))
          as (l & r & Hrun & [l' Hpre] & Hr).
        exists (l1 ++ l), r.
        split; [| split].
        -- simpl for_await.
           rewrite (bind_returned _ _ _ _ _ Hrun1).
           rewrite Hrun, logged_logged. reflexivity.
        -- exists l'.
           change (flat_map full_trace (DirectoryHandle n sub sfl :: rest))
             with (full_trace (DirectoryHandle n sub sfl)
                   ++ flat_map full_trace rest).
           rewrite Hfull1, Hpre, app_assoc. reflexivity.
        -- change (flat_map full_trace (DirectoryHandle n sub sfl :: rest))
             with (full_trace (DirectoryHandle n sub sfl)
                   ++ flat_map full_trace rest).
           change (first_of first_failure
                     (DirectoryHandle n sub sfl :: rest) fl)
             with (match first_failure (DirectoryHandle n sub sfl) with
                   | Some e => Some e
                   | None => first_of first_failure rest fl
                   end).
           rewrite Hnone1, Hfull1.
           destruct r as [nodes | e].
           ++ destruct Hr as [<- Hnone]. auto.
           ++ exact Hr.
      * exists l1, (Thrown e).
        split; [| split].
        -- simpl for_await. now rewrite (bind_thrown _ _ _ _ _ Hrun1).
        -- exists (l1' ++ flat_map full_trace rest).
           change (flat_map full_trace (DirectoryHandle n sub sfl :: rest))
             with (full_trace (DirectoryHandle n sub sfl)
                   ++ flat_map full_trace rest).
           rewrite Hpre1, app_assoc. reflexivity.
        -- change (first_of first_failure
                     (DirectoryHandle n sub sfl :: rest) fl)
             with (match first_failure (DirectoryHandle n sub sfl) with
                   | Some e => Some e
                   | None => first_of first_failure rest fl
                   end).
           rewrite Hr1. reflexivity.
    + destruct (IH path acc s) as (l & r & Hrun & Hpre & Hr).
      exists l, r. auto.
Qed.

Lemma readDirectory_order (h : Handle) : read_order h.
Proof.
  induction h as [n g | n entries fl IH | n] using Handle_induction;
    intros Hdir; try discriminate Hdir.
  intros path s.
  destruct (for_await_order fl entries IH path [] (logged s [Values n]))
    as (l & r & Hrun & [l' Hpre] & Hr).
  exists ([Values n] ++ l), r.
  split; [| split].
  - simpl readDirectory.
    rewrite (bind_returned _ _ _ _ _ (record_run _ _)).
    rewrite Hrun, logged_logged. reflexivity.
  - exists l'. simpl. rewrite Hpre. reflexivity.
  - simpl. destruct r as [nodes | e].
    + destruct Hr as [<- Hnone]. auto.
    + exact Hr.
Qed.

Lemma for_await_calls (fl : option JsError) (rest : list Handle) :
  Forall read_calls rest ->
  forall path acc s, exists r,
    for_await readDirectory fl path rest acc s
    = (logged s (calls_until calls_made rest), r) /\
    match r with
    | Returned _ => first_of first_failure rest fl = None
    | Thrown e => first_of first_failure rest fl = Some e
    end.
Proof.
  induction 1 as [| entry rest Hentry _ IH]; intros path acc s.
  - cbn [for_await calls_until first_of]. rewrite logged_nil.
    destruct fl as [e |].
    + exists (Thrown e). split; reflexivity.
    + exists (Returned acc). split; reflexivity.
  - destruct entry as [n [f | e] | n sub sfl | n].
    + cbn [for_await calls_until calls_made first_of first_failure].
      rewrite (bind_returned _ _ _ _ _ (await_returned _ _ _)).
      destruct (text f) as [c | e].
      * rewrite (bind_returned _ _ _ _ _ (await_returned _ _ _)).
        rewrite logged_logged.
        destruct (IH path
                    (acc ++ [{| name := n; type := file;
                                content := Some c; children := None |}])
                    (logged s ([GetFile n] ++ [Text n])))
          as (r & Hrun & Hr).
        exists r. rewrite Hrun, logged_logged. split; [reflexivity | exact Hr].
      * rewrite (bind_thrown _ _ _ _ _ (await_thrown _ _ _)).
        rewrite logged_logged.
        exists (Thrown e). split; reflexivity.
    + cbn [for_await calls_until calls_made first_of first_failure].
      rewrite (bind_thrown _ _ _ _ _ (await_thrown _ _ _)).
      exists (Thrown e). split; reflexivity.
    + destruct (Hentry eq_refl (path ++ "/" ++ n)%string s)
        as (r1 & Hrun1 & Hr1).
      cbn [for_await calls_until first_of].
      destruct r1 as [ch | e].
      * rewrite (bind_returned _ _ _ _ _ Hrun1), Hr1.
        destruct (IH path
                    (acc ++ [{| name := n; type := directory;
                                content := None; children := Some ch |}])
                    (logged s (calls_made (DirectoryHandle n sub sfl))))
          as (r & Hrun & Hr).
        exists r. rewrite Hrun, logged_logged. split; [reflexivity | exact Hr].
      * rewrite (bind_thrown _ _ _ _ _ Hrun1), Hr1, app_nil_r.
        exists (Thrown e). split; reflexivity.
    + cbn [for_await calls_until calls_made first_of first_failure app].
      apply IH.
Qed.

Lemma readDirectory_calls (h : Handle) : read_calls h.
Proof.
  induction h as [n g | n entries fl IH | n] using Handle_induction;
    intros Hdir; try discriminate Hdir.
  intros path s.
  destruct (for_await_calls fl entries IH path [] (logged s [Values n]))
    as (r & Hrun & Hr).
  exists r. split; [| exact Hr].
  cbn [readDirectory calls_made].
  rewrite (bind_returned _ _ _ _ _ (record_run _ _)).
  rewrite Hrun, logged_logged. reflexivity.
Qed.

Lemma calls_made_complete (h : Handle) :
  first_failure h = None -> calls_made h = full_trace h.
Proof.
  intros Hnone.
  destruct h as [n [f | e] | n entries fl | n];
    try reflexivity; try discriminate Hnone.
  destruct (readDirectory_calls (DirectoryHandle n entries fl)
              eq_refl "" initial_store) as (r & Hrun & Hr).
  destruct (readDirectory_order (DirectoryHandle n entries fl)
              eq_refl "" initial_store) as (l2 & r2 & Hrun2 & _ & Hr2).
  rewrite Hrun in Hrun2. injection Hrun2 as Hl <-.
  destruct r as [nodes | e].
  - destruct Hr2 as [-> _]. exact Hl.
  - rewrite Hr in Hnone. discriminate Hnone.
Qed.

Lemma calls_made_prefix n entries fl :
  forallb is_access (calls_made (DirectoryHandle n entries fl)) = true /\
  exists l',
    full_trace (DirectoryHandle n entries fl)
    = calls_made (DirectoryHandle n entries fl) ++ l'.
Proof.
  destruct (readDirectory_calls (DirectoryHandle n entries fl)
              eq_refl "" initial_store) as (r & Hrun & _).
  destruct (readDirectory_order (DirectoryHandle n entries fl)
              eq_refl "" initial_store) as (l2 & r2 & Hrun2 & Hpre & _).
  destruct (readDirectory_spec (DirectoryHandle n entries fl)
              "" initial_store) as (l3 & r3 & Hrun3 & Hacc & _).
  rewrite Hrun in Hrun2, Hrun3.
  injection Hrun2 as Hl2 _. injection Hrun3 as Hl3 _.
  rewrite <- Hl2 in Hpre. rewrite <- Hl3 in Hacc.
  split; assumption.
Qed.

Lemma calls_until_stops (pre : list Handle) (x : Handle) (post : list Handle) :
  first_of first_failure pre None = None ->
  first_failure x <> None ->
  calls_until calls_made (pre ++ x :: post)
  = flat_map full_trace pre ++ calls_made x.
Proof.
  intros Hpre Hx.
  induction pre as [| a pre IH].
  - cbn [app calls_until flat_map].
    destruct (first_failure x); [apply app_nil_r | contradiction].
  - cbn [app calls_until flat_map first_of] in *.
    destruct (first_failure a) as [e |] eqn:Ha; [discriminate Hpre |].
    rewrite (calls_made_complete a Ha), (IH Hpre), app_assoc. reflexivity.
Qed.

Lemma Snapshot_functional entries nodes1 :
  Snapshot entries nodes1 ->
  forall nodes2, Snapshot entries nodes2 -> nodes1 = nodes2.
Proof.
  induction 1 as [| n f c rest nodes Htext _ IH
                  | n sub ch rest nodes _ IHsub _ IH
                  | n rest nodes _ IH]; intros nodes2 H2;
    inversion H2; subst.
  - reflexivity.
  - f_equal; [| apply IH; assumption]. congruence.
  - f_equal; [| apply IH; assumption].
    f_equal. f_equal. apply IHsub. assumption.
  - apply IH. assumption.
Qed.

(** ** Further properties of [handleFolderSelect] *)

Lemma banner_not_empty (e : JsError) : (banner e =? "")%string = false.
Proof.
  unfold banner, or_else.
  destruct (error_name e =? "SecurityError")%string; [reflexivity |].
  destruct (error_message e =? "")%string eqn:Hmsg; [reflexivity | exact Hmsg].
Qed.

(** The picker resolves to a directory that is read without failure. *)
Lemma handleFolderSelect_success window s n entries fl :
  has_showDirectoryPicker window = true ->
  top_is_self window = true ->
  showDirectoryPicker window = Returned (DirectoryHandle n entries fl) ->
  faulty (DirectoryHandle n entries fl) = false ->
  exists nodes,
    Snapshot entries nodes /\
    handleFolderSelect window s
    = ({| ui := with_files nodes (with_error None (ui s));
          journal := journal s
                     ++ [SetError None; ShowDirectoryPicker]
                     ++ full_trace (DirectoryHandle n entries fl)
                     ++ [SetFiles nodes] |},
       Returned tt).
Proof.
  intros Hhas Htop Hpick Hok.
  destruct (handleFolderSelect_picked window s _ Hhas Htop Hpick)
    as (s1 & l & r & Hrun & _ & ->).
  destruct (readDirectory_sound n entries fl "" s1 Hok)
    as (l1 & nodes & Hrun1 & _ & Hsnap).
  destruct (readDirectory_order (DirectoryHandle n entries fl) eq_refl "" s1)
    as (l2 & r2 & Hrun2 & _ & Hr2).
  rewrite Hrun1 in Hrun. injection Hrun as Hl <-.
  rewrite Hrun1 in Hrun2. injection Hrun2 as Hl2 <-.
  apply app_inv_head in Hl, Hl2. subst l l2.
  destruct Hr2 as [-> _].
  exists nodes. split; [exact Hsnap | reflexivity].
Qed.

(** The picker resolves to a directory below which a read fails. *)
Lemma handleFolderSelect_failure window s n entries fl e :
  has_showDirectoryPicker window = true ->
  top_is_self window = true ->
  showDirectoryPicker window = Returned (DirectoryHandle n entries fl) ->
  first_failure (DirectoryHandle n entries fl) = Some e ->
  handleFolderSelect window s
  = ({| ui := with_error (Some (banner e)) (ui s);
        journal := journal s
                   ++ [SetError None; ShowDirectoryPicker]
                   ++ calls_made (DirectoryHandle n entries fl)
                   ++ [ConsoleError e; SetError (Some (banner e))] |},
     Returned tt).
Proof.
  intros Hhas Htop Hpick Hfirst.
  destruct (handleFolderSelect_picked window s _ Hhas Htop Hpick)
    as (s1 & l & r & Hrun & _ & ->).
  destruct (readDirectory_calls (DirectoryHandle n entries fl) eq_refl "" s1)
    as (r2 & Hrun2 & Hr2).
  rewrite Hrun in Hrun2. injection Hrun2 as Hl <-.
  apply app_inv_head in Hl. subst l.
  destruct r as [nodes | e'].
  - rewrite Hr2 in Hfirst. discriminate Hfirst.
  - rewrite Hr2 in Hfirst. injection Hfirst as ->. reflexivity.
Qed.

Lemma handleFolderSelect_frame window s :
  selectedFile (ui (fst (handleFolderSelect window s))) = selectedFile (ui s) /\
  terminalOutput (ui (fst (handleFolderSelect window s)))
  = terminalOutput (ui s).
Proof.
  destruct (has_showDirectoryPicker window) eqn:Hhas.
  - destruct (top_is_self window) eqn:Htop.
    + destruct (showDirectoryPicker window) as [d | e] eqn:Hpick.
      * destruct (handleFolderSelect_picked window s d Hhas Htop Hpick)
          as (s1 & l & r & _ & _ & ->).
        destruct r; split; reflexivity.
      * rewrite (handleFolderSelect_rejected window s e Hhas Htop Hpick).
        split; reflexivity.
    + rewrite (handleFolderSelect_framed window s Hhas Htop).
      split; reflexivity.
  - rewrite (handleFolderSelect_unsupported window s Hhas).
    split; reflexivity.
Qed.

(** ** Further properties of [renderFileTree] and of the page *)

Lemma div_at_render (p : list nat) :
  forall nodes level,
    div_at (renderFileTree nodes level) p
    = option_map (render_node (level + (length p - 1))) (node_at nodes p).
Proof.
  induction p as [| i p IH]; intros nodes level.
  - reflexivity.
  - cbn [div_at node_at]. unfold renderFileTree at 1.
    rewrite nth_error_map.
    destruct (nth_error nodes i) as [node |]; [| reflexivity].
    cbn [option_map].
    destruct p as [| j p].
    + cbn [length option_map]. rewrite Nat.sub_diag, Nat.add_0_r. reflexivity.
    + destruct node as [n t c [ch |]]; cbn [render_node nested children].
      * fold (renderFileTree ch (level + 1)). rewrite IH.
        replace (level + 1 + (length (j :: p) - 1))
          with (level + (length (i :: j :: p) - 1)) by (simpl; lia).
        reflexivity.
      * destruct j; reflexivity.
Qed.

Lemma click_row_frame (s : Store) (p : list nat) :
  dispatch (ClickRow p) s = s \/
  exists node,
    node_at (files (ui s)) p = Some node /\ type node = file /\
    dispatch (ClickRow p) s
    = {| ui := with_selectedFile
                 (Some (name node, content_or_empty (content node))) (ui s);
         journal := journal s
                    ++ [SetSelectedFile
                          (Some (name node,
                                 content_or_empty (content node)))] |}.
Proof.
  unfold dispatch. cbn [Home file_tree].
  rewrite div_at_render.
  destruct (node_at (files (ui s)) p) as [node |]; [| left; reflexivity].
  cbn [option_map].
  destruct node as [n t c ch]. cbn [render_node onClick click type].
  destruct t.
  - right. eexists. split; [reflexivity |]. split; reflexivity.
  - left. reflexivity.
Qed.

Lemma dispatch_invariant (ev : UserEvent) (s : Store) :
  terminalOutput (ui s) = [] /\
  forallb well_formed (files (ui s)) = true /\
  error (ui s) <> Some "" ->
  terminalOutput (ui (dispatch ev s)) = [] /\
  forallb well_formed (files (ui (dispatch ev s))) = true /\
  error (ui (dispatch ev s)) <> Some "".
Proof.
  intros (Hterm & Hwf & Herr).
  destruct ev as [window | p |].
  - cbn [dispatch Home onOpenFolder].
    destruct (has_showDirectoryPicker window) eqn:Hhas.
    + destruct (top_is_self window) eqn:Htop.
      * destruct (showDirectoryPicker window) as [d | e] eqn:Hpick.
        -- destruct (handleFolderSelect_picked window s d Hhas Htop Hpick)
             as (s1 & l & r & Hrun & _ & ->).
           destruct r as [nodes | e];
             cbn [fst ui with_files with_error
                  files terminalOutput error].
           ++ split; [exact Hterm |]. split; [| discriminate].
              destruct (readDirectory_returned _ _ _ _ _ Hrun)
                as (n & entries & l0 & _ & _ & _ & Hsnap).
              exact (Snapshot_well_formed _ _ Hsnap).
           ++ split; [exact Hterm |]. split; [exact Hwf |].
              intros H. injection H as H.
              pose proof (banner_not_empty e) as Hne.
              rewrite H in Hne. discriminate Hne.
        -- rewrite (handleFolderSelect_rejected window s e Hhas Htop Hpick).
           cbn [fst ui with_error files terminalOutput error].
           split; [exact Hterm |]. split; [exact Hwf |].
           intros H. injection H as H.
           pose proof (banner_not_empty e) as Hne.
           rewrite H in Hne. discriminate Hne.
      * rewrite (handleFolderSelect_framed window s Hhas Htop).
        cbn [fst ui with_error files terminalOutput error].
        split; [exact Hterm |]. split; [exact Hwf | discriminate].
    + rewrite (handleFolderSelect_unsupported window s Hhas).
      cbn [fst ui with_error files terminalOutput error].
      split; [exact Hterm |]. split; [exact Hwf | discriminate].
  - destruct (click_row_frame s p) as [-> | (node & _ & _ & ->)].
    + auto.
    + cbn [ui with_selectedFile files terminalOutput error]. auto.
  - cbn [dispatch Home editor].
    destruct (selectedFile (ui s)) as [[n c] |]; [| auto].
    rewrite setSelectedFile_run.
    cbn [fst ui with_selectedFile files terminalOutput error]. auto.
Qed.

(** ** Further properties *)

(** X1. Inside a frame ([window.top !== window.self]) the action never
    calls the picker nor touches a handle: it sets the banner to the
    iframe message and leaves [files], the selection and the terminal
    output as they were, whatever the picker would have answered. *)
Theorem framed_page_never_opens_picker window s :
  has_showDirectoryPicker window = true ->
  top_is_self window = false ->
  let s' := fst (handleFolderSelect window s) in
  exists l,
    journal s' = journal s ++ l /\
    existsb touches_file_system l = false /\
    error (ui s')
    = Some "This feature cannot be used within an iframe. Please open the application in a new tab." /\
    files (ui s') = files (ui s) /\
    selectedFile (ui s') = selectedFile (ui s) /\
    terminalOutput (ui s') = terminalOutput (ui s).
Proof.
  intros Hhas Htop s'. subst s'.
  rewrite (handleFolderSelect_framed window s Hhas Htop).
  eexists. cbn [fst ui journal with_error
                files selectedFile terminalOutput error].
  repeat split.
Qed.

Lemma framed_page_never_opens_picker_witness :
  let s' := fst (handleFolderSelect framed_window opened_store) in
  exists l,
    journal s' = journal opened_store ++ l /\
    existsb touches_file_system l = false /\
    error (ui s')
    = Some "This feature cannot be used within an iframe. Please open the application in a new tab." /\
    files (ui s') = nested_example /\
    selectedFile (ui s') = Some ("a.txt", "alpha") /\
    terminalOutput (ui s') = [].
Proof.
  exact (framed_page_never_opens_picker framed_window opened_store
           eq_refl eq_refl).
Defined.

(** X2. After every run of the action the alert that the page shows is
    exactly [error] (the action never stores an empty message, which the
    page would hide), and [error] is [null] exactly when the last thing
    the run did was [setFiles] with the tree now in [files]. *)
Theorem alert_shows_every_failure window s :
  let s' := fst (handleFolderSelect window s) in
  alert (Home (ui s')) = error (ui s') /\
  (error (ui s') = None <->
   exists nodes,
     last (journal s') ShowDirectoryPicker = SetFiles nodes /\
     files (ui s') = nodes).
Proof.
  intros s'. subst s'.
  assert (Hbanner : forall e,
             (if (banner e =? "")%string then None else Some (banner e))
             = Some (banner e))
    by (intros e; now rewrite banner_not_empty).
  destruct (has_showDirectoryPicker window) eqn:Hhas.
  - destruct (top_is_self window) eqn:Htop.
    + destruct (showDirectoryPicker window) as [d | e] eqn:Hpick.
      * destruct (handleFolderSelect_picked window s d Hhas Htop Hpick)
          as (s1 & l & r & _ & _ & ->).
        destruct r as [nodes | e];
          cbn [fst ui journal Home alert with_files with_error files error].
        -- split; [reflexivity |]. split; [| reflexivity].
           intros _. exists nodes.
           rewrite !app_assoc, last_last. auto.
        -- split; [apply Hbanner |]. split; [discriminate |].
           intros (nodes & Hlast & _).
           change [ConsoleError e; SetError (Some (banner e))]
             with ([ConsoleError e] ++ [SetError (Some (banner e))]) in Hlast.
           rewrite !app_assoc, last_last in Hlast. discriminate Hlast.
      * rewrite (handleFolderSelect_rejected window s e Hhas Htop Hpick).
        cbn [fst ui journal Home alert with_error files error].
        split; [apply Hbanner |]. split; [discriminate |].
        intros (nodes & Hlast & _).
        change [SetError None; ShowDirectoryPicker; ConsoleError e;
                SetError (Some (banner e))]
          with ([SetError None; ShowDirectoryPicker; ConsoleError e]
                ++ [SetError (Some (banner e))]) in Hlast.
        rewrite app_assoc, last_last in Hlast. discriminate Hlast.
    + rewrite (handleFolderSelect_framed window s Hhas Htop).
      cbn [fst ui journal Home alert with_error files error].
      split; [reflexivity |]. split; [discriminate |].
      intros (nodes & Hlast & _).
      change [SetError None; ConsoleError (new_Error iframe_message);
              SetError (Some iframe_message)]
        with ([SetError None; ConsoleError (new_Error iframe_message)]
              ++ [SetError (Some iframe_message)]) in Hlast.
      rewrite app_assoc, last_last in Hlast. discriminate Hlast.
  - rewrite (handleFolderSelect_unsupported window s Hhas).
    cbn [fst ui journal Home alert with_error files error].
    split; [reflexivity |]. split; [discriminate |].
    intros (nodes & Hlast & _).
    change [SetError None; SetError (Some unsupported_message)]
      with ([SetError None] ++ [SetError (Some unsupported_message)]) in Hlast.
    rewrite app_assoc, last_last in Hlast. discriminate Hlast.
Qed.

Lemma alert_shows_every_failure_witness :
  alert (Home (ui (fst (handleFolderSelect
                          (window_with (Returned broken_project))
                          opened_store))))
  = Some "The requested file could not be read." /\
  error (ui (fst (handleFolderSelect (window_with (Returned project))
                                     opened_store))) = None.
Proof.
  split.
  - rewrite (proj1 (alert_shows_every_failure
                      (window_with (Returned broken_project)) opened_store)).
    reflexivity.
  - apply (proj2 (alert_shows_every_failure
                    (window_with (Returned project)) opened_store)).
    eexists. split; reflexivity.
Defined.

(** X3. A pick that resolves to a directory read without failure
    replaces [files] by the tree read and clears the error, but keeps
    the selection and the terminal output; the run calls the picker
    once, then every handle of the directory once, depth first in the
    order of the enumeration, and [setFiles] once, last. *)
Theorem successful_pick_replaces_only_the_tree window s n entries fl :
  has_showDirectoryPicker window = true ->
  top_is_self window = true ->
  showDirectoryPicker window = Returned (DirectoryHandle n entries fl) ->
  faulty (DirectoryHandle n entries fl) = false ->
  let s' := fst (handleFolderSelect window s) in
  exists nodes,
    Snapshot entries nodes /\
    ui s' = {| files := nodes;
               selectedFile := selectedFile (ui s);
               terminalOutput := terminalOutput (ui s);
               error := None |} /\
    journal s' = journal s
                 ++ [SetError None; ShowDirectoryPicker]
                 ++ full_trace (DirectoryHandle n entries fl)
                 ++ [SetFiles nodes].
Proof.
  intros Hhas Htop Hpick Hok s'. subst s'.
  destruct (handleFolderSelect_success window s n entries fl
              Hhas Htop Hpick Hok) as (nodes & Hsnap & ->).
  exists nodes. split; [exact Hsnap |]. split; reflexivity.
Qed.

Lemma successful_pick_replaces_only_the_tree_witness :
  let s' := fst (handleFolderSelect (window_with (Returned project))
                                    opened_store) in
  exists nodes,
    Snapshot project_entries nodes /\
    ui s' = {| files := nodes;
               selectedFile := Some ("a.txt", "alpha");
               terminalOutput := [];
               error := None |} /\
    journal s' = [SetError None; ShowDirectoryPicker;
                  Values "project"; GetFile "a.txt"; Text "a.txt";
                  Values "lib"; GetFile "b.txt"; Text "b.txt";
                  SetFiles nodes].
Proof.
  exact (successful_pick_replaces_only_the_tree
           (window_with (Returned project)) opened_store
           "project" project_entries None eq_refl eq_refl eq_refl eq_refl).
Defined.

(** X4. The [path] argument of [readDirectory] has no effect: whatever
    path is passed, the same calls are made and the same tree is
    returned or the same value thrown. *)
Theorem readDirectory_ignores_path h p1 p2 s :
  readDirectory h p1 s = readDirectory h p2 s.
Proof.
  revert p1 p2 s.
  induction h as [n g | n entries fl IH | n] using Handle_induction;
    intros p1 p2 s.
  - reflexivity.
  - cbn [readDirectory]. unfold bind at 1 2.
    rewrite record_run.
    apply for_await_ignores_path, IH.
  - reflexivity.
Qed.

(** X5. A read of a directory changes nothing of the component state
    and calls handles only, in depth-first order, and it stops at the
    first failure: the calls made are exactly [calls_made], a prefix of
    the complete walk (enumerate a directory, then for each entry in
    order fetch and decode a file or walk a subdirectory). The walk is
    complete when a tree is returned; when an entry fails, the entries
    before it have been walked completely, the failing entry up to its
    failure, and no handle of the entries after it is called. The value
    thrown is the first failure. *)
Theorem readDirectory_walks_depth_first n entries fl path s :
  exists r,
    readDirectory (DirectoryHandle n entries fl) path s
    = ({| ui := ui s;
          journal := journal s
                     ++ calls_made (DirectoryHandle n entries fl) |}, r) /\
    forallb is_access (calls_made (DirectoryHandle n entries fl)) = true /\
    (exists l',
        full_trace (DirectoryHandle n entries fl)
        = calls_made (DirectoryHandle n entries fl) ++ l') /\
    match r with
    | Returned _ =>
        calls_made (DirectoryHandle n entries fl)
        = full_trace (DirectoryHandle n entries fl) /\
        first_failure (DirectoryHandle n entries fl) = None
    | Thrown e => first_failure (DirectoryHandle n entries fl) = Some e
    end /\
    (forall pre x post,
        entries = pre ++ x :: post ->
        first_of first_failure pre None = None ->
        first_failure x <> None ->
        calls_made (DirectoryHandle n entries fl)
        = Values n :: flat_map full_trace pre ++ calls_made x).
Proof.
  destruct (readDirectory_calls (DirectoryHandle n entries fl) eq_refl path s)
    as (r & Hrun & Hr).
  destruct (calls_made_prefix n entries fl) as [Hacc Hpre].
  exists r. split; [exact Hrun |]. split; [exact Hacc |].
  split; [exact Hpre |]. split.
  - destruct r as [nodes | e]; [| exact Hr].
    split; [apply calls_made_complete |]; exact Hr.
  - intros pre x post -> Hbefore Hx.
    cbn [calls_made]. f_equal.
    apply calls_until_stops; assumption.
Qed.

Lemma readDirectory_walks_depth_first_witness :
  readDirectory twice_broken_project "" initial_store
  = ({| ui := ui initial_store;
        journal := [Values "project"; GetFile "a.txt"; Text "a.txt"] |},
     Thrown not_readable) /\
  calls_made twice_broken_project
  = [Values "project"; GetFile "a.txt"; Text "a.txt"].
Proof.
  split.
  - reflexivity.
  - destruct (readDirectory_walks_depth_first
                "project"
                [ FileHandle "a.txt" (Returned {| text := Thrown not_readable |});
                  DirectoryHandle "lib" [] (Some access_denied) ]
                None "" initial_store)
      as (r & _ & _ & _ & _ & Hstop).
    refine (Hstop []
              (FileHandle "a.txt" (Returned {| text := Thrown not_readable |}))
              [DirectoryHandle "lib" [] (Some access_denied)]
              eq_refl eq_refl _).
    discriminate.
Defined.

(** X6. When the picker resolves to a directory below which reads fail,
    the banner is the one of the first failure of the depth-first walk
    and [files] is left as it was. The run calls the picker, then
    exactly the handles of [calls_made], then [console.error] and
    [setError]: the entries before the failing one are walked
    completely, the failing one up to its failure, and no handle of the
    entries after it is called, so later failures are never reached. *)
Theorem first_failure_is_reported window s n entries fl e :
  has_showDirectoryPicker window = true ->
  top_is_self window = true ->
  showDirectoryPicker window = Returned (DirectoryHandle n entries fl) ->
  first_failure (DirectoryHandle n entries fl) = Some e ->
  let s' := fst (handleFolderSelect window s) in
  error (ui s') = Some (banner e) /\
  files (ui s') = files (ui s) /\
  journal s' = journal s
               ++ [SetError None; ShowDirectoryPicker]
               ++ calls_made (DirectoryHandle n entries fl)
               ++ [ConsoleError e; SetError (Some (banner e))] /\
  (forall pre x post,
      entries = pre ++ x :: post ->
      first_of first_failure pre None = None ->
      first_failure x <> None ->
      calls_made (DirectoryHandle n entries fl)
      = Values n :: flat_map full_trace pre ++ calls_made x).
Proof.
  intros Hhas Htop Hpick Hfirst s'. subst s'.
  rewrite (handleFolderSelect_failure window s n entries fl e
             Hhas Htop Hpick Hfirst).
  split; [reflexivity |]. split; [reflexivity |]. split; [reflexivity |].
  intros pre x post -> Hbefore Hx.
  cbn [calls_made]. f_equal.
  apply calls_until_stops; assumption.
Qed.

Lemma first_failure_is_reported_witness :
  let s' := fst (handleFolderSelect
                   (window_with (Returned twice_broken_project))
                   opened_store) in
  error (ui s') = Some "The requested file could not be read." /\
  files (ui s') = nested_example /\
  journal s' = [SetError None; ShowDirectoryPicker;
                Values "project"; GetFile "a.txt"; Text "a.txt";
                ConsoleError not_readable;
                SetError (Some "The requested file could not be read.")].
Proof.
  destruct (first_failure_is_reported
              (window_with (Returned twice_broken_project)) opened_store
              "project"
              [ FileHandle "a.txt" (Returned {| text := Thrown not_readable |});
                DirectoryHandle "lib" [] (Some access_denied) ]
              None not_readable eq_refl eq_refl eq_refl eq_refl)
    as (Herr & Hfiles & Hjournal & Hstop).
  split; [exact Herr |]. split; [exact Hfiles |].
  assert (Hx : first_failure
                 (FileHandle "a.txt" (Returned {| text := Thrown not_readable |}))
               <> None) by discriminate.
  rewrite Hjournal.
  rewrite (Hstop [] _ [DirectoryHandle "lib" [] (Some access_denied)]
             eq_refl eq_refl Hx).
  reflexivity.
Defined.

(** X7. The tree view is always fully expanded: the row at a position of
    the rendered tree is the row of the node at the same position of
    [files], at the level given by the depth of the position, and there
    is a row for every node, at any depth. *)
Theorem rendered_tree_is_fully_expanded nodes level p :
  div_at (renderFileTree nodes level) p
  = option_map (render_node (level + (length p - 1))) (node_at nodes p).
Proof.
  apply div_at_render.
Qed.

(** X8. Opening a folder and then clicking the row at the position of
    one of its file entries shows that file: the selection is the
    entry's name with the text that [text()] resolved to during the
    read, and the editor tab shows the viewer with them. *)
Theorem open_then_click_shows_the_text window s n entries fl p m g :
  has_showDirectoryPicker window = true ->
  top_is_self window = true ->
  showDirectoryPicker window = Returned (DirectoryHandle n entries fl) ->
  faulty (DirectoryHandle n entries fl) = false ->
  entry_at entries p = Some (FileHandle m g) ->
  let s' := run_events [ClickOpenFolder window; ClickRow p] s in
  exists f c,
    g = Returned f /\ text f = Returned c /\
    selectedFile (ui s') = Some (m, c) /\
    editor (Home (ui s')) = FileViewer m c (setSelectedFile None).
Proof.
  intros Hhas Htop Hpick Hok Hat s'. subst s'.
  change (run_events [ClickOpenFolder window; ClickRow p] s)
    with (dispatch (ClickRow p) (fst (handleFolderSelect window s))).
  destruct (handleFolderSelect_success window s n entries fl
              Hhas Htop Hpick Hok) as (nodes & Hsnap & ->).
  destruct (Snapshot_file_at entries nodes Hsnap p m g Hat)
    as (f & c & Hg & Htext & Hnode).
  exists f, c. split; [exact Hg |]. split; [exact Htext |].
  unfold dispatch. cbn [fst ui Home file_tree with_files files].
  rewrite div_at_render, Hnode.
  cbn [option_map render_node onClick click type name content
       content_or_empty].
  rewrite setSelectedFile_run.
  cbn [fst ui Home editor with_selectedFile selectedFile].
  split; reflexivity.
Qed.

Lemma open_then_click_shows_the_text_witness :
  let s' := run_events [ClickOpenFolder (window_with (Returned project));
                        ClickRow [1; 0]] initial_store in
  exists f c,
    readable "beta" = Returned f /\ text f = Returned c /\
    selectedFile (ui s') = Some ("b.txt", c) /\
    editor (Home (ui s')) = FileViewer "b.txt" c (setSelectedFile None).
Proof.
  exact (open_then_click_shows_the_text
           (window_with (Returned project)) initial_store
           "project" project_entries None [1; 0] "b.txt" (readable "beta")
           eq_refl eq_refl eq_refl eq_refl eq_refl).
Defined.

(** X9. The close button undoes a selection and nothing else: after a
    click on any row and then on the close button nothing is selected,
    the editor tab shows its prompt, and the rest of the state is as it
    was before the two clicks; if nothing was selected before them, the
    state is the one before them. Without a selection there is no close
    button, so a further close changes nothing. *)
Theorem close_undoes_selection s p :
  let s1 := dispatch (ClickRow p) s in
  let s2 := dispatch ClickClose s1 in
  ui s2 = with_selectedFile None (ui s) /\
  editor (Home (ui s2))
  = EditorPlaceholder "Select a file to view its contents" /\
  (selectedFile (ui s) = None -> ui s2 = ui s) /\
  dispatch ClickClose s2 = s2.
Proof.
  intros s1 s2.
  assert (Hui : ui s2 = with_selectedFile None (ui s)).
  { subst s2 s1.
    destruct (click_row_frame s p) as [-> | (node & _ & _ & ->)].
    - cbn [dispatch Home editor].
      destruct s as [[f sel t e] j]. destruct sel as [[n c] |]; reflexivity.
    - reflexivity. }
  assert (Hsel : selectedFile (ui s2) = None) by (rewrite Hui; reflexivity).
  split; [exact Hui |].
  split; [cbn [Home editor]; rewrite Hsel; reflexivity |].
  split.
  - intros Hnone. rewrite Hui.
    destruct s as [[f sel t e] j]. simpl in Hnone. subst sel. reflexivity.
  - cbn [dispatch Home editor]. rewrite Hsel. reflexivity.
Qed.

Lemma close_undoes_selection_witness :
  let s := fst (handleFolderSelect (window_with (Returned project))
                                   initial_store) in
  let s1 := dispatch (ClickRow [1; 0]) s in
  let s2 := dispatch ClickClose s1 in
  selectedFile (ui s) = None /\
  selectedFile (ui s1) = Some ("b.txt", "beta") /\
  ui s2 = ui s.
Proof.
  split; [reflexivity |]. split; [reflexivity |].
  exact (proj1 (proj2 (proj2 (close_undoes_selection
                                (fst (handleFolderSelect
                                        (window_with (Returned project))
                                        initial_store))
                                [1; 0])))
               eq_refl).
Defined.

(** X10. Whatever the user does, starting from the initial state: the
    terminal output stays empty and the terminal panel shows its prompt
    (nothing ever writes to it), every node of [files] has exactly one
    of [content] and [children] as its [type] says, and the alert shown
    is exactly [error]. *)
Theorem reachable_pages_keep_invariants evs :
  let s := run_events evs initial_store in
  terminalOutput (ui s) = [] /\
  terminal (Home (ui s))
  = TerminalPlaceholder "Terminal output will appear here" /\
  forallb well_formed (files (ui s)) = true /\
  alert (Home (ui s)) = error (ui s).
Proof.
  intros s.
  assert (Hinv : terminalOutput (ui s) = [] /\
                 forallb well_formed (files (ui s)) = true /\
                 error (ui s) <> Some "").
  { subst s. unfold run_events.
    assert (Hinit : terminalOutput (ui initial_store) = [] /\
                    forallb well_formed (files (ui initial_store)) = true /\
                    error (ui initial_store) <> Some "")
      by (repeat split; discriminate).
    revert Hinit. generalize initial_store.
    induction evs as [| ev evs IH]; intros s0 H0.
    - exact H0.
    - cbn [fold_left]. apply IH, dispatch_invariant, H0. }
  destruct Hinv as (Hterm & Hwf & Herr).
  split; [exact Hterm |].
  split; [cbn [Home terminal]; rewrite Hterm; reflexivity |].
  split; [exact Hwf |].
  cbn [Home alert].
  destruct (error (ui s)) as [msg |]; [| reflexivity].
  destruct (msg =? "")%string eqn:Hmsg; [| reflexivity].
  apply String.eqb_eq in Hmsg. subst msg. exfalso. apply Herr. reflexivity.
Qed.

(** X11. A successful pick makes the component state forget whatever an
    earlier attempt of any kind did: running any attempt and then the
    successful pick gives the same state as the successful pick alone. *)
Theorem later_pick_overrides_earlier_attempt earlier window s n entries fl :
  has_showDirectoryPicker window = true ->
  top_is_self window = true ->
  showDirectoryPicker window = Returned (DirectoryHandle n entries fl) ->
  faulty (DirectoryHandle n entries fl) = false ->
  ui (fst (handleFolderSelect window (fst (handleFolderSelect earlier s))))
  = ui (fst (handleFolderSelect window s)).
Proof.
  intros Hhas Htop Hpick Hok.
  destruct (handleFolderSelect_frame earlier s) as [Hsel Hterm].
  destruct (handleFolderSelect_success
              window (fst (handleFolderSelect earlier s)) n entries fl
              Hhas Htop Hpick Hok) as (nodes1 & Hsnap1 & ->).
  destruct (handleFolderSelect_success window s n entries fl
              Hhas Htop Hpick Hok) as (nodes2 & Hsnap2 & ->).
  rewrite (Snapshot_functional _ _ Hsnap1 _ Hsnap2).
  cbn [fst ui]. unfold with_files, with_error.
  cbn [files selectedFile terminalOutput error].
  rewrite Hsel, Hterm. reflexivity.
Qed.

Lemma later_pick_overrides_earlier_attempt_witness :
  ui (fst (handleFolderSelect
             (window_with (Returned project))
             (fst (handleFolderSelect
                     (window_with (Returned broken_project)) opened_store))))
  = ui (fst (handleFolderSelect (window_with (Returned project))
                                opened_store)).
Proof.
  exact (later_pick_overrides_earlier_attempt
           (window_with (Returned broken_project))
           (window_with (Returned project)) opened_store
           "project" project_entries None eq_refl eq_refl eq_refl eq_refl).
Defined.

(** X12. No run of the action, whether it succeeds or fails, changes the
    selection or the terminal output: the editor tab shows after the run
    what it showed before, also when [files] was replaced by the tree of
    another folder. *)
Theorem folder_pick_keeps_the_editor window s :
  let s' := fst (handleFolderSelect window s) in
  selectedFile (ui s') = selectedFile (ui s) /\
  terminalOutput (ui s') = terminalOutput (ui s) /\
  editor (Home (ui s')) = editor (Home (ui s)) /\
  terminal (Home (ui s')) = terminal (Home (ui s)).
Proof.
  intros s'. subst s'.
  destruct (handleFolderSelect_frame window s) as [Hsel Hterm].
  split; [exact Hsel |]. split; [exact Hterm |].
  cbn [Home editor terminal]. rewrite Hsel, Hterm. split; reflexivity.
Qed.
